(** * CANopen-monitor: the frame bus and the message table

    A shallow embedding of [canmon/bus.py] (class [TheMagicCanBus]) and of
    [canopen_monitor/can/message_table.py] (class [MessageTable]), together
    with their callers: the rows, the scrolling, the resizing and the
    column widths of [canopen_monitor/ui/message_pane.py] (class
    [MessagePane]), and [pad_hex] and the selection of a pane in
    [canopen_monitor/app.py].

    Python objects live in a store and are named by references, methods are
    computations in a state-and-exception monad, and every [raise] of the
    interpreter that the code can reach (a failed index, a missing attribute,
    a comparison with [None]) is an explicit [Raise]. *)

From Stdlib Require Import Ascii HexString.
From stdpp Require Import base gmap list strings sorting pretty.

(** ** Exceptions and the state-and-exception monad *)

(** The exceptions of the Python runtime that the two classes can raise or
    catch.  [ParserError] stands for whatever the external decoder raises;
    [ReferenceError] is the lookup of a reference that the store does not
    hold, which no Python program reaches and which makes the store total. *)
Inductive exn :=
  | StopIteration
  | IndexError
  | KeyError
  | TypeError
  | AttributeError
  | ValueError
  | OSError
  | Full
  | ParserError
  | ReferenceError.

#[global] Instance exn_eq_dec : EqDecision exn.
Proof. solve_decision. Defined.

Inductive result (A : Type) :=
  | Ok (a : A)
  | Raise (e : exn).
Arguments Ok {A} a.
Arguments Raise {A} e.

#[global] Instance result_ret : MRet result := @Ok.
#[global] Instance result_bind : MBind result :=
  λ A B f r, match r with Ok a => f a | Raise e => Raise e end.

(** A computation over a state [S]: the state survives an exception, as the
    fields of a Python object do. *)
Definition ST (S A : Type) : Type := S → S * result A.

#[global] Instance ST_ret {S} : MRet (ST S) := λ A a s, (s, Ok a).
#[global] Instance ST_bind {S} : MBind (ST S) :=
  λ A B f m s, match m s with
               | (s', Ok a) => f a s'
               | (s', Raise e) => (s', Raise e)
               end.

Definition gets {S A} (f : S → A) : ST S A := λ s, (s, Ok (f s)).
Definition modify {S} (f : S → S) : ST S unit := λ s, (f s, Ok tt).
Definition raise {S A} (e : exn) : ST S A := λ s, (s, Raise e).
Definition lift {S A} (r : result A) : ST S A := λ s, (s, r).

(** Reading an attribute that may not have been assigned yet. *)
Definition getattr {S A} (f : S → option A) : ST S A :=
  λ s, (s, from_option Ok (Raise AttributeError) (f s)).

(** The values that reach the window cursor of a table: an [int], or the
    [None] that is the default of the second argument of [__call__]. *)
Inductive value :=
  | PyInt (z : Z)
  | PyNone.

#[global] Instance value_eq_dec : EqDecision value.
Proof. solve_decision. Defined.

(** [l[i]] on a Python list: a negative index counts from the end, an index
    outside [-len, len) raises [IndexError], and [None] is no index. *)
Definition py_index {A} (l : list A) (i : value) : result A :=
  match i with
  | PyNone => Raise TypeError
  | PyInt i =>
      let n := Z.of_nat (length l) in
      let j := if bool_decide (i < 0)%Z then (i + n)%Z else i in
      if bool_decide (0 ≤ j < n)%Z
      then from_option Ok (Raise IndexError) (l !! Z.to_nat j)
      else Raise IndexError
  end.

(** [a < b]: Python 3 refuses to order [None] and an [int]. *)
Definition py_lt (a b : value) : result bool :=
  match a, b with
  | PyInt x, PyInt y => Ok (bool_decide (x < y)%Z)
  | _, _ => Raise TypeError
  end.

(** [a + b] *)
Definition py_add (a b : value) : result value :=
  match a, b with
  | PyInt x, PyInt y => Ok (PyInt (x + y))
  | _, _ => Raise TypeError
  end.

(** [l.remove(x)]: drops the first element equal to [x], [ValueError] when
    there is none. *)
Fixpoint list_remove `{EqDecision A} (x : A) (l : list A) : result (list A) :=
  match l with
  | [] => Raise ValueError
  | y :: l' =>
      if decide (x = y) then Ok l'
      else l'' ← list_remove x l'; Ok (y :: l'')
  end.

(** ** Messages *)

(** Modelled from the spec: the module [canopen_monitor/can/message.py]
    ([Message], [MessageType]) is not part of the sources at hand.  The spec
    lists the tags HEARTBEAT, NMT, SYNC, TIME, EMER, SDO, PDO and a
    catch-all, and gives a message an arbitration id, a type, a supertype
    and a display text. *)
Inductive MessageType :=
  | HEARTBEAT | NMT | SYNC | TIME | EMER | SDO | PDO | UNKNOWN.

#[global] Instance MessageType_eq_dec : EqDecision MessageType.
Proof. solve_decision. Defined.

Record Message := mkMessage {
  arb_id : Z;
  type : MessageType;
  supertype : MessageType;
  message : string;
}.

#[global] Instance Message_eq_dec : EqDecision Message.
Proof. solve_decision. Defined.

(** [message.message = text] *)
Definition set_message (m : Message) (text : string) : Message :=
  {| arb_id := arb_id m; type := type m; supertype := supertype m;
     message := text |}.

(** The decode capability: an object with a [parse] method that returns the
    display text of a message or raises.  [parser_id] is the identity of the
    object. *)
Record Parser := mkParser {
  parser_id : nat;
  parse : Message → result string;
}.

(** A loop [for x in l: body(x)] over a list that the body does not touch. *)
Fixpoint for_list {S A} (l : list A) (body : A → ST S unit) : ST S unit :=
  match l with
  | [] => mret tt
  | x :: l' => body x;; for_list l' body
  end.

(** ** The message table ([canopen_monitor/can/message_table.py]) *)

Module MessageTable.

(** The fields of one [MessageTable] object.  [__keys], [__start] and
    [__stop] are assigned by [__iter__] and [__call__] only, so they are
    absent on a table that was just built. *)
Record t := mk {
  parser : option Parser;
  table : gmap Z Message;
  __keys : option (list Z);
  __start : option value;
  __stop : option value;
}.

Definition set_table (f : gmap Z Message → gmap Z Message) (o : t) : t :=
  mk (parser o) (f (table o)) (__keys o) (__start o) (__stop o).
Definition set_keys (ks : list Z) (o : t) : t :=
  mk (parser o) (table o) (Some ks) (__start o) (__stop o).
Definition set_start (v : value) (o : t) : t :=
  mk (parser o) (table o) (__keys o) (Some v) (__stop o).
Definition set_stop (v : value) (o : t) : t :=
  mk (parser o) (table o) (__keys o) (__start o) (Some v).

(** The store of table objects. *)
Definition loc := positive.
Abbreviation heap := (gmap loc t).

(** Runs a method body on the fields of the object [self] refers to. *)
Definition invoke {A} (self : loc) (body : ST t A) : ST heap A :=
  λ h, match h !! self with
       | Some o => let '(o', r) := body o in (<[self := o']> h, r)
       | None => (h, Raise ReferenceError)
       end.

(** [MessageTable(parser=parser)]: a new object, at a reference that is
    not in use. *)
Definition __init__ (parser : option Parser) : ST heap loc :=
  λ h, let self := fresh (dom h) in
       (<[self := mk parser ∅ None None None]> h, Ok self).

(** [len(self.table)] *)
Definition len_table : ST t value :=
  gets (λ o, PyInt (Z.of_nat (size (table o)))).

(** The decoded text is assigned to the message itself; messages are
    values here, so the table holds the message with the new text. *)
Definition __add__ (self : loc) (message : Message) : ST heap loc :=
  invoke self (
    p ← gets parser;
    message ← match p with
              | Some p => text ← lift (parse p message);
                          mret (set_message message text)
              | None => mret message
              end;
    modify (set_table <[arb_id message := message]>);;
    mret self).

Definition __len__ (self : loc) : ST heap value :=
  invoke self len_table.

(** The dictionary is walked in the order of [map_to_list]; the keys of a
    dictionary are distinct, so the order does not show in the result. *)
Definition filter (self : loc) (types : list MessageType) : ST heap loc :=
  p ← invoke self (gets parser);
  filtered ← __init__ p;
  items ← invoke self (gets (λ o, map_to_list (table o)));
  for_list items (λ '(k, v),
    if bool_decide (type v ∈ types) || bool_decide (supertype v ∈ types)
    then invoke filtered (modify (set_table <[k := v]>))
    else mret tt);;
  mret filtered.

Definition __contains__ (self : loc) (node_id : Z) : ST heap bool :=
  invoke self (gets (λ o, bool_decide (is_Some (table o !! node_id)))).

(** [sorted(list(self.table.keys()))] *)
Definition sorted_keys (o : t) : list Z :=
  merge_sort Z.le (map_to_list (table o)).*1.

Definition __iter__ (self : loc) : ST heap loc :=
  invoke self (
    ks ← gets sorted_keys;
    modify (set_keys ks);;
    mret self).

Definition __next__ (self : loc) : ST heap Message :=
  invoke self (
    start ← getattr __start;
    stop ← getattr __stop;
    if bool_decide (start = stop) then raise StopIteration else
    tb ← gets table;
    ks ← getattr __keys;
    start ← getattr __start;
    k ← lift (py_index ks start);
    message ← lift (from_option Ok (Raise KeyError) (tb !! k));
    start ← getattr __start;
    start ← lift (py_add start (PyInt 1));
    modify (set_start start);;
    mret message).

Definition __call__ (self : loc) (start : value) (stop : value)
  : ST heap loc :=
  invoke self (
    n ← len_table;
    b ← lift (py_lt stop n);
    modify (set_stop (if b : bool then stop else n));;
    stop ← getattr __stop;
    b ← lift (py_lt start stop);
    modify (set_start (if b : bool then start else stop));;
    mret self).

(** [for message in it: ...], recording the messages handed to the body
    and the exception that ended the loop ([StopIteration] when the
    iterator was exhausted).  [None] when [fuel] calls of [__next__] did
    not end the loop. *)
Fixpoint consume (fuel : nat) (it : loc) (h : heap)
  : option (heap * list Message * exn) :=
  match fuel with
  | O => None
  | S fuel =>
      match __next__ it h with
      | (h, Ok m) =>
          '(h, ms, e) ← consume fuel it h; Some (h, m :: ms, e)
      | (h, Raise e) => Some (h, [], e)
      end
  end.

(** The number of calls of [__next__] after which an iteration over the
    table at [it] has ended: the cursor moves up by one per call and
    leaves [-len, len) after at most [2 * len] steps. *)
Definition enough_fuel (it : loc) (h : heap) : nat :=
  match h !! it with
  | Some o => S (2 * size (table o))
  | None => 1
  end.

(** [for message in self: ...]: [iter(self)], then [__next__] until it
    raises. *)
Definition for_in (self : loc) (h : heap)
  : option (heap * list Message * exn) :=
  match __iter__ self h with
  | (h, Ok it) => consume (enough_fuel it h) it h
  | (h, Raise e) => Some (h, [], e)
  end.

End MessageTable.

(** ** The frame bus ([canmon/bus.py]) *)

Module TheMagicCanBus.

(** A device handle.  [SocketCanDev] defines no equality of its own, so
    two handles are equal when they are the same object: [dev_id] is that
    identity, [ndev] the interface name. *)
Record SocketCanDev := mkDev {
  dev_id : nat;
  ndev : string;
}.

#[global] Instance SocketCanDev_eq_dec : EqDecision SocketCanDev.
Proof. solve_decision. Defined.

(** What [dev.recv()] returns; the bus does not look inside. *)
Record Frame := mkFrame {
  frame_id : Z;
  frame_data : list Z;
}.

(** The two calls of the listener that depend on the world outside:
    [dev.recv()] returns a frame or raises [OSError], and
    [self.frames.put(...)] stores the entry or raises [Full]. *)
Inductive recv_outcome :=
  | Received (f : Frame)
  | RecvFails.
Inductive put_outcome :=
  | Stored
  | QueueFull.

(** A [threading.Thread] whose target is [self.listen] with argument
    [target_dev]: it runs, has returned, or has died of an exception that
    [listen] does not catch. *)
Inductive tstate :=
  | Alive
  | Returned
  | Died (e : exn).

#[global] Instance tstate_eq_dec : EqDecision tstate.
Proof. solve_decision. Defined.

Record Thread := mkThread {
  target_dev : SocketCanDev;
  state : tstate;
}.

Definition tid := nat.

(** The fields of the bus object.  [timeout] only bounds the wait of
    [receive] and is left out. *)
Record t := mk {
  devs : list SocketCanDev;
  frames : list (Frame * string);
  stop_listening : bool;
  block : bool;
  threads : list tid;
}.

(** The bus together with what it acts on: the thread objects, the lines
    printed, the joins that have completed (in order), the interfaces
    that exist on the machine, the outcomes that each device will hand to
    its listener (by [dev_id]), and the next unused object identity. *)
Record world := mkWorld {
  bus : t;
  thread_objs : gmap tid Thread;
  stdout : list string;
  joined : list tid;
  ifaces : list string;
  hw : gmap nat (list (recv_outcome * put_outcome));
  next_id : nat;
}.

Definition upd_bus (f : t → t) (w : world) : world :=
  mkWorld (f (bus w)) (thread_objs w) (stdout w) (joined w) (ifaces w)
          (hw w) (next_id w).
Definition upd_threads (f : gmap tid Thread → gmap tid Thread) (w : world)
  : world :=
  mkWorld (bus w) (f (thread_objs w)) (stdout w) (joined w) (ifaces w)
          (hw w) (next_id w).
Definition upd_hw (f : gmap nat (list (recv_outcome * put_outcome)) →
                       gmap nat (list (recv_outcome * put_outcome)))
                  (w : world) : world :=
  mkWorld (bus w) (thread_objs w) (stdout w) (joined w) (ifaces w)
          (f (hw w)) (next_id w).
Definition print (line : string) (w : world) : world :=
  mkWorld (bus w) (thread_objs w) (stdout w ++ [line]) (joined w)
          (ifaces w) (hw w) (next_id w).
Definition log_join (th : tid) (w : world) : world :=
  mkWorld (bus w) (thread_objs w) (stdout w) (joined w ++ [th])
          (ifaces w) (hw w) (next_id w).
Definition bump_id (w : world) : world :=
  mkWorld (bus w) (thread_objs w) (stdout w) (joined w) (ifaces w)
          (hw w) (S (next_id w)).

Definition set_devs (ds : list SocketCanDev) (b : t) : t :=
  mk ds (frames b) (stop_listening b) (block b) (threads b).
Definition set_frames (fs : list (Frame * string)) (b : t) : t :=
  mk (devs b) fs (stop_listening b) (block b) (threads b).
Definition set_stop_listening (b : t) : t :=
  mk (devs b) (frames b) true (block b) (threads b).
Definition set_threads (ts : list tid) (b : t) : t :=
  mk (devs b) (frames b) (stop_listening b) (block b) ts.

(** [start]: the device is built and started (which fails when the
    interface does not exist), appended to [devs]; its listener thread is
    created, started and appended to [threads]. *)
Definition start (dev_name : string) : ST world unit :=
  known ← gets ifaces;
  if bool_decide (dev_name ∈ known) then
    n ← gets next_id;
    modify bump_id;;
    let dev := mkDev n dev_name in
    ds ← gets (λ w, devs (bus w));
    modify (upd_bus (set_devs (ds ++ [dev])));;
    modify (upd_threads <[n := mkThread dev Alive]>);;
    ts ← gets (λ w, threads (bus w));
    modify (upd_bus (set_threads (ts ++ [n])))
  else raise OSError.

Definition __init__ (device_names : list string) (block : bool)
  : ST world unit :=
  modify (upd_bus (λ _, mk [] [] false block []));;
  for_list device_names start.

Definition stop (dev : SocketCanDev) : ST world unit :=
  ds ← gets (λ w, devs (bus w));
  ds ← lift (list_remove dev ds);
  modify (upd_bus (set_devs ds)).

(** The statement inside the [while] of [listen], for one outcome of the
    device and of the queue. *)
Definition listen_body (dev : SocketCanDev)
    (io : recv_outcome * put_outcome) : ST world unit :=
  f ← lift (match io.1 with
            | Received f => Ok f
            | RecvFails => Raise OSError
            end);
  match io.2 with
  | Stored =>
      fs ← gets (λ w, frames (bus w));
      modify (upd_bus (set_frames (fs ++ [(f, ndev dev)])))
  | QueueFull => raise Full
  end.

(** The [except] clauses of [listen]. *)
Definition listen_handler (dev : SocketCanDev) (e : exn)
  : option (ST world unit) :=
  match e with
  | Full => Some (mret tt)
  | OSError => Some (stop dev)
  | _ => None
  end.

Definition finish (th : tid) (dev : SocketCanDev) (s : tstate) (w : world)
  : world :=
  upd_threads <[th := mkThread dev s]> w.

(** One turn of the listener thread [th]: the test of the [while], then
    the body under the [try].  A thread that is not alive, or whose
    device has nothing to deliver yet (it is blocked in [recv]), does not
    move. *)
Definition listen (th : tid) (w : world) : world :=
  match thread_objs w !! th with
  | Some (mkThread dev Alive) =>
      if stop_listening (bus w) then finish th dev Returned w
      else
        match hw w !! dev_id dev with
        | Some (io :: rest) =>
            let w := upd_hw <[dev_id dev := rest]> w in
            match listen_body dev io w with
            | (w, Ok _) => w
            | (w, Raise e) =>
                match listen_handler dev e with
                | Some handler =>
                    match handler w with
                    | (w, Ok _) => finish th dev Returned w
                    | (w, Raise e) => finish th dev (Died e) w
                    end
                | None => finish th dev (Died e) w
                end
            end
        | _ => w
        end
  | _ => w
  end.

(** [for dev in self.devs: body(dev)] where the body may change
    [self.devs]: the list iterator holds an index, and hands out
    [self.devs[index]] as long as the index is inside the list as it is
    then.  [None] when [fuel] tests did not end the loop. *)
Fixpoint for_devs (fuel index : nat) (body : SocketCanDev → ST world unit)
    (w : world) : option (world * result unit) :=
  match fuel with
  | O => None
  | S fuel =>
      match devs (bus w) !! index with
      | None => Some (w, Ok tt)
      | Some dev =>
          match body dev w with
          | (w, Ok _) => for_devs fuel (S index) body w
          | (w, Raise e) => Some (w, Raise e)
          end
      end
  end.

(** [thread.join()]: the caller waits while the thread takes its turns.
    [None] when the thread is still alive after [fuel] turns. *)
Fixpoint join (fuel : nat) (th : tid) (w : world) : option world :=
  match thread_objs w !! th with
  | Some (mkThread _ Alive) =>
      match fuel with
      | O => None
      | S fuel => join fuel th (listen th w)
      end
  | Some _ => Some (log_join th w)
  | None => None
  end.

(** A listener takes at most one turn per outcome its device still has
    to deliver, and one more to leave. *)
Definition join_fuel (th : tid) (w : world) : nat :=
  match thread_objs w !! th with
  | Some (mkThread dev _) => S (length (default [] (hw w !! dev_id dev)))
  | None => 0
  end.

Fixpoint join_each (ths : list tid) (w : world) : option world :=
  match ths with
  | [] => Some w
  | th :: ths => w ← join (join_fuel th w) th w; join_each ths w
  end.

Definition stop_all (w : world) : option (world * result unit) :=
  (* Remove all devices from the device table *)
  '(w, r) ← for_devs (S (length (devs (bus w)))) 0 stop w;
  match r with
  | Raise e => Some (w, Raise e)
  | Ok _ =>
      let w := upd_bus set_stop_listening w in
      let n := length (threads (bus w)) in
      let w := print ("waiting for " +:+ pretty n
                      +:+ " bus-threads to close.") w in
      if bool_decide (0 < n) then
        w ← join_each (threads (bus w)) w;
        Some (print "all bus threads closed gracefully!" w, Ok tt)
      else
        Some (print "no child bus threads were spawned!" w, Ok tt)
  end.

(** [receive]: the oldest entry of the queue, or [None] when the wait
    ran out on an empty queue. *)
Definition receive : ST world (option (Frame * string)) :=
  fs ← gets (λ w, frames (bus w));
  match fs with
  | [] => mret None
  | res :: fs => modify (upd_bus (set_frames fs));; mret (Some res)
  end.

End TheMagicCanBus.

(** ** The caller of the table ([canopen_monitor/ui/message_pane.py]) *)

Module MessagePane.

(** [__filter_messages]: the filtered copy of the pane's table with the
    window of the pane selected on it; [top] is [self.__top]. *)
Definition __filter_messages (table : MessageTable.loc)
    (types : list MessageType) (top d_height : Z)
  : ST MessageTable.heap MessageTable.loc :=
  filtered ← MessageTable.filter table types;
  MessageTable.__call__ filtered (PyInt top) (PyInt (top + d_height - 3)).

(** The messages that the loops of [draw] and [__check_col_widths] go
    through: the iteration over one result of [__filter_messages]. *)
Definition rows (table : MessageTable.loc) (types : list MessageType)
    (top d_height : Z) (h : MessageTable.heap)
  : option (MessageTable.heap * list Message * exn) :=
  match __filter_messages table types top d_height h with
  | (h, Ok draw_messages) => MessageTable.for_in draw_messages h
  | (h, Raise e) => Some (h, [], e)
  end.

(** The fields of a pane that scrolling reads and writes. *)
Record t := mk {
  cursor : Z;
  cursor_min : Z;
  cursor_max : Z;
  __top : Z;
  __top_max : Z;
}.

Definition set_cursor (c : Z) (p : t) : t :=
  mk c (cursor_min p) (cursor_max p) (__top p) (__top_max p).
Definition set_top (n : Z) (p : t) : t :=
  mk (cursor p) (cursor_min p) (cursor_max p) n (__top_max p).

Definition scroll_up (rate : Z) : ST t unit :=
  c ← gets cursor;
  modify (set_cursor (c - 1));;
  c ← gets cursor;
  cmin ← gets cursor_min;
  if bool_decide (c < cmin)%Z then
    modify (set_cursor cmin);;
    n ← gets __top;
    modify (set_top (n - 1));;
    n ← gets __top;
    if bool_decide (n < 0)%Z then modify (set_top 0) else mret tt
  else mret tt.

Definition scroll_down (rate : Z) : ST t unit :=
  c ← gets cursor;
  modify (set_cursor (c + 1));;
  c ← gets cursor;
  cmax ← gets cursor_max;
  if bool_decide (c > cmax - 1)%Z then
    modify (set_cursor (cmax - 1));;
    tmax ← gets __top_max;
    if bool_decide (tmax > 0)%Z then
      n ← gets __top;
      modify (set_top (n + 1))
    else mret tt
  else mret tt.

(** The two keys that scroll, and what pressing one does to the pane. *)
Inductive key :=
  | KEY_UP
  | KEY_DOWN.

Definition press (p : t) (k : key) : t :=
  match k with
  | KEY_UP => (scroll_up 1 p).1
  | KEY_DOWN => (scroll_down 1 p).1
  end.

(** [resize] reads the table and writes the pane: its state is the store
    of the tables together with the fields of the pane. *)
Definition on_tables {A} (m : ST MessageTable.heap A)
  : ST (MessageTable.heap * t) A :=
  λ '(h, p), let '(h', r) := m h in ((h', p), r).

Definition on_pane {A} (m : ST t A) : ST (MessageTable.heap * t) A :=
  λ '(h, p), let '(p', r) := m p in ((h, p'), r).

(** [len(x)] on a table: what [__len__] returns has to be an [int]. *)
Definition len (x : MessageTable.loc) : ST (MessageTable.heap * t) Z :=
  n ← on_tables (MessageTable.__len__ x);
  match n with
  | PyInt n => mret n
  | PyNone => raise TypeError
  end.

Definition set_cursor_max (n : Z) (p : t) : t :=
  mk (cursor p) (cursor_min p) n (__top p) (__top_max p).
Definition set_top_max (n : Z) (p : t) : t :=
  mk (cursor p) (cursor_min p) (cursor_max p) (__top p) n.

(** [resize], after the call of [Pane.resize]: [d_height] is the height
    that the call has left in [self.d_height]. *)
Definition resize (table : MessageTable.loc) (types : list MessageType)
    (d_height : Z) : ST (MessageTable.heap * t) unit :=
  let p_height := (d_height - 3)%Z in
  n ← len table;
  cmax ← (if bool_decide (n < p_height)%Z then len table else mret p_height);
  on_pane (modify (set_cursor_max cmax));;
  top ← on_pane (gets __top);
  filtered ← on_tables (__filter_messages table types top d_height);
  n ← len filtered;
  top ← on_pane (gets __top);
  cmax ← on_pane (gets cursor_max);
  let occluded := (n - top - cmax)%Z in
  on_pane (modify (set_top_max
                     (if bool_decide (occluded > 0)%Z then occluded else 0%Z))).

(** One value of the dictionary [cols]: the tuple of the attribute of the
    message, the width of the column and, when the tuple has three
    places, the function that formats the attribute.  Names and texts are
    strings of ASCII characters, for which [len] is [String.length]. *)
Record column (F : Type) := mkColumn {
  attr_name : string;
  col_width : Z;
  formatter : option F;
}.
Arguments mkColumn {F} _ _ _.
Arguments attr_name {F} _.
Arguments col_width {F} _.
Arguments formatter {F} _.

(** [cols] keeps the order in which its keys were inserted, and what the
    pane counts here is the calls of [super().clear()]. *)
Record columns (F : Type) := mkColumns {
  cols : list (string * column F);
  clears : nat;
}.
Arguments mkColumns {F} _ _.
Arguments cols {F} _.
Arguments clears {F} _.

(** [d[k] = v] on a dictionary *)
Fixpoint dict_set {V} (k : string) (v : V) (d : list (string * V))
  : list (string * V) :=
  match d with
  | [] => [(k, v)]
  | (k', v') :: d' =>
      if decide (k = k') then (k, v) :: d' else (k', v') :: dict_set k v d'
  end.

Section widths.
Context {F : Type}.

(** [str(getattr(message, name))], which belongs to the class [Message]
    and to the attribute. *)
Variable str_attr : Message → string → result string.

Definition set_col (name : string) (data : column F) (c : columns F)
  : columns F :=
  mkColumns (dict_set name data (cols c)) (clears c).

Definition clear (c : columns F) : columns F :=
  mkColumns (cols c) (S (clears c)).

(** The loops go over the items of [cols] while they assign to it; they
    assign to the key at hand only, so every item is read before it is
    written. *)
Definition __reset_col_widths : ST (columns F) unit :=
  items ← gets cols;
  for_list items (λ '(name, data),
    modify (set_col name
              (mkColumn (attr_name data) (Z.of_nat (String.length name))
                        (formatter data)))).

(** The body of the outer loop of [__check_col_widths]. *)
Definition check_message (message : Message) : ST (columns F) unit :=
  items ← gets cols;
  for_list items (λ '(name, data),
    text ← lift (str_attr message (attr_name data));
    let attr_len := Z.of_nat (String.length text) in
    if bool_decide (col_width data < attr_len)%Z then
      modify (set_col name (mkColumn (attr_name data) attr_len None));;
      modify clear
    else mret tt).

(** [for message in messages: ...] of [__check_col_widths], one call of
    [__next__] and one run of the body at a time.  [None] when [fuel]
    calls of [__next__] did not end the loop. *)
Fixpoint check_loop (fuel : nat) (messages : MessageTable.loc)
    (h : MessageTable.heap) (c : columns F)
  : option (MessageTable.heap * columns F * result unit) :=
  match fuel with
  | O => None
  | S fuel =>
      match MessageTable.__next__ messages h with
      | (h, Ok message) =>
          match check_message message c with
          | (c, Ok _) => check_loop fuel messages h c
          | (c, Raise e) => Some (h, c, Raise e)
          end
      | (h, Raise StopIteration) => Some (h, c, Ok tt)
      | (h, Raise e) => Some (h, c, Raise e)
      end
  end.

Definition __check_col_widths (messages : MessageTable.loc)
    (h : MessageTable.heap) (c : columns F)
  : option (MessageTable.heap * columns F * result unit) :=
  match MessageTable.__iter__ messages h with
  | (h, Ok it) => check_loop (MessageTable.enough_fuel it h) it h c
  | (h, Raise e) => Some (h, c, Raise e)
  end.

(** The length of the text of an attribute, and a column after one
    message and after a list of messages. *)
Definition attr_len (message : Message) (name : string) : Z :=
  match str_attr message name with
  | Ok text => Z.of_nat (String.length text)
  | Raise _ => 0
  end.

Definition widened (message : Message) (data : column F) : column F :=
  if bool_decide (col_width data < attr_len message (attr_name data))%Z
  then mkColumn (attr_name data) (attr_len message (attr_name data)) None
  else data.

(** Every attribute that a column shows can be read off the message. *)
Definition readable (items : list (string * column F)) (m : Message)
  : Prop :=
  ∀ name data, (name, data) ∈ items →
               ∃ text, str_attr m (attr_name data) = Ok text.

End widths.

End MessagePane.

(** ** The application ([canopen_monitor/app.py]) *)

Module App.

(** [s.upper()] on a string of ASCII characters. *)
Definition upper_char (c : ascii) : ascii :=
  let n := nat_of_ascii c in
  if bool_decide (97 ≤ n ≤ 122) then ascii_of_nat (n - 32) else c.

Fixpoint upper (s : string) : string :=
  match s with
  | EmptyString => EmptyString
  | String c s => String (upper_char c) (upper s)
  end.

(** [s[n:]] for [n ≥ 0] *)
Fixpoint slice_from (n : nat) (s : string) : string :=
  match n, s with
  | S n, String _ s => slice_from n s
  | _, _ => s
  end.

(** [fill * n] *)
Fixpoint repeat_char (fill : ascii) (n : nat) : string :=
  match n with
  | O => EmptyString
  | S n => String fill (repeat_char fill n)
  end.

(** [s.rjust(width, fill)] *)
Definition rjust (width : nat) (fill : ascii) (s : string) : string :=
  repeat_char fill (width - String.length s) +:+ s.

(** [hex(value)]: an optional minus sign, the prefix 0x, and the digits in
    lower case without leading zeros. *)
Definition hex (value : Z) : string := HexString.of_Z value.

Definition pad_hex (value : Z) : string :=
  "0x" +:+ rjust 3 "0" (slice_from 2 (upper (hex value))).

(** The fields of the application that [__select_pane] writes, and the
    attribute [selected] of the pane objects, by reference. *)
Record t := mk {
  selected_pane_pos : Z;
  selected_pane : option positive;
  pane_selected : gmap positive bool;
}.

Definition set_selected (pane : positive) (b : bool) (a : t) : t :=
  mk (selected_pane_pos a) (selected_pane a) (<[pane := b]> (pane_selected a)).

Definition __select_pane (pane : positive) (pos : Z) : ST t unit :=
  old ← gets selected_pane;
  match old with
  | Some old => modify (set_selected old false)
  | None => mret tt
  end;;
  modify (λ a, mk (selected_pane_pos a) (Some pane) (pane_selected a));;
  modify (λ a, mk pos (selected_pane a) (pane_selected a));;
  sp ← gets selected_pane;
  match sp with
  | Some sp => modify (set_selected sp true)
  | None => raise AttributeError
  end.

End App.

(** ** Hexadecimal digits *)


(** ** Columns of a pane, for trying things out *)

Module Screens.

(** The texts of two attributes of a message; any other attribute is
    missing. *)
Definition text_of (m : Message) (name : string) : result string :=
  if decide (name = "message") then Ok (message m)
  else if decide (name = "arb_id") then Ok (pretty (arb_id m))
  else Raise AttributeError.

(** Two columns as [App] builds them, after [__reset_col_widths]: the
    first with a formatter (here a number names it), the second without. *)
Definition two_columns : MessagePane.columns nat :=
  MessagePane.mkColumns
    [("COB ID", MessagePane.mkColumn "arb_id" 6 (Some 0));
     ("Message", MessagePane.mkColumn "message" 7 None)] 0.

End Screens.

(** ** Sequences of calls on a bus *)

(** What the owner of a bus and its listener threads can do to it. *)
Inductive bus_op :=
  | DoStart (dev_name : string)
  | DoStop (dev : TheMagicCanBus.SocketCanDev)
  | DoListen (th : TheMagicCanBus.tid)
  | DoReceive
  | DoStopAll.

Definition run_op (w : TheMagicCanBus.world) (op : bus_op)
  : TheMagicCanBus.world :=
  match op with
  | DoStart dev_name => (TheMagicCanBus.start dev_name w).1
  | DoStop dev => (TheMagicCanBus.stop dev w).1
  | DoListen th => TheMagicCanBus.listen th w
  | DoReceive => (TheMagicCanBus.receive w).1
  | DoStopAll => match TheMagicCanBus.stop_all w with
                 | Some (w', _) => w'
                 | None => w
                 end
  end.

Definition run_ops (ops : list bus_op) (w : TheMagicCanBus.world)
  : TheMagicCanBus.world :=
  foldl run_op w ops.

(** [n] calls of [receive], with what they returned. *)
Fixpoint receive_n (n : nat) (w : TheMagicCanBus.world)
  : TheMagicCanBus.world * list (option (TheMagicCanBus.Frame * string)) :=
  match n with
  | O => (w, [])
  | S n =>
      match TheMagicCanBus.receive w with
      | (w, Ok res) => let '(w, rs) := receive_n n w in (w, res :: rs)
      | (w, Raise _) => (w, [])
      end
  end.


(** ** The loop of [filter], turn by turn *)

(** The test of [filter] on one entry, and what one turn of its loop does
    to the dictionary of the copy. *)
Definition selected (types : list MessageType) (v : Message) : bool :=
  bool_decide (type v ∈ types) || bool_decide (supertype v ∈ types).

Definition keep (types : list MessageType) (acc : gmap Z Message)
    (kv : Z * Message) : gmap Z Message :=
  if selected types kv.2 then <[kv.1 := kv.2]> acc else acc.

(** ** Inserting, message by message *)

(** [parse] returns on the message (no parser: nothing to call). *)
Definition parses (p : option Parser) (m : Message) : Prop :=
  match p with
  | Some p => ∃ text, parse p m = Ok text
  | None => True
  end.

(** The message as [__add__] stores it. *)
Definition stored (p : option Parser) (m : Message) : Message :=
  match p with
  | Some p => match parse p m with
              | Ok text => set_message m text
              | Raise _ => m
              end
  | None => m
  end.

(** [for m in msgs: table + m] *)
Definition add_all (self : MessageTable.loc) (msgs : list Message)
  : ST MessageTable.heap unit :=
  for_list msgs (λ m, MessageTable.__add__ self m;; mret tt).

(** ** Selecting a window and iterating over it *)

(** [for message in table(start, stop): ...] *)
Definition window (self : MessageTable.loc) (start stop : Z)
    (h : MessageTable.heap)
  : option (MessageTable.heap * list Message * exn) :=
  match MessageTable.__call__ self (PyInt start) (PyInt stop) h with
  | (h, Ok it) => MessageTable.for_in it h
  | (h, Raise e) => Some (h, [], e)
  end.

(** The entries of a dictionary under the keys [ks], in the order of
    [ks]. *)
Definition entries_at (tb : gmap Z Message) (ks : list Z) : list Message :=
  omap (λ k, tb !! k) ks.

(** The indices [s], ..., [e - 1] of a list. *)
Definition slice {A} (s e : Z) (l : list A) : list A :=
  take (Z.to_nat (e - s)) (drop (Z.to_nat s) l).

(** ** What a loop that removes while it iterates leaves behind *)

(** The elements at the odd positions of a list. *)
Fixpoint every_second {A} (l : list A) : list A :=
  match l with
  | _ :: y :: l' => y :: every_second l'
  | _ => []
  end.

(** ** The shape of a bus that [start], [stop] and the listeners keep *)

(** The handles in [devs] are pairwise distinct objects created earlier,
    and every entry of [threads] is a thread object. *)
Definition bus_ok (w : TheMagicCanBus.world) : Prop :=
  NoDup (TheMagicCanBus.devs (TheMagicCanBus.bus w)) ∧
  Forall (λ d, TheMagicCanBus.dev_id d < TheMagicCanBus.next_id w)
         (TheMagicCanBus.devs (TheMagicCanBus.bus w)) ∧
  ∀ th, th ∈ TheMagicCanBus.threads (TheMagicCanBus.bus w) →
        is_Some (TheMagicCanBus.thread_objs w !! th).

(** ** Concrete tables and buses *)

Module Examples.

Definition m1 : Message := mkMessage 1 SDO UNKNOWN "raw 1".
Definition m2 : Message := mkMessage 2 PDO SDO "raw 2".
Definition m3 : Message := mkMessage 3 HEARTBEAT UNKNOWN "raw 3".

(** A store with one table, at reference 1, that has no parser and holds
    the three messages. *)
Definition three : MessageTable.heap :=
  {[ 1%positive :=
       MessageTable.mk None (<[1%Z := m1]> (<[2%Z := m2]> {[ 3%Z := m3 ]}))
                       None None None ]}.

(** A parser that decodes nothing, and one that decodes everything. *)
Definition deaf : Parser := mkParser 0 (λ _, Raise ParserError).

(** Stores with one empty table at reference 1. *)
Definition empty_with (p : option Parser) : MessageTable.heap :=
  {[ 1%positive := MessageTable.mk p ∅ None None None ]}.

(** A machine with three CAN interfaces and a bus that has started
    nothing yet. *)
Definition machine : TheMagicCanBus.world :=
  TheMagicCanBus.mkWorld (TheMagicCanBus.mk [] [] false true []) ∅ [] []
                         ["can0"; "can1"; "vcan0"] ∅ 0.

(** The bus after [TheMagicCanBus(["can0", "can1"])]. *)
Definition two_devices : TheMagicCanBus.world :=
  (TheMagicCanBus.__init__ ["can0"; "can1"] true machine).1.

Definition can0 : TheMagicCanBus.SocketCanDev := TheMagicCanBus.mkDev 0 "can0".
Definition can1 : TheMagicCanBus.SocketCanDev := TheMagicCanBus.mkDev 1 "can1".

End Examples.

(** * Properties of the message table *)

Import MessageTable.

Ltac st_unfold :=
  unfold mbind, ST_bind, mret, ST_ret, result_bind, result_ret,
         gets, modify, lift, getattr, raise in *.

Lemma invoke_at {A} (body : ST t A) h self o :
  h !! self = Some o →
  invoke self body h = (<[self := (body o).1]> h, (body o).2).
Proof. intros Hl. unfold invoke. rewrite Hl. by destruct (body o). Qed.

Lemma invoke_dangling {A} (body : ST t A) (h : heap) self :
  h !! self = None → invoke self body h = (h, Raise ReferenceError).
Proof. intros Hl. unfold invoke. by rewrite Hl. Qed.

(** What each method does to the object it is called on. *)

Lemma add_at h self o m :
  h !! self = Some o →
  __add__ self m h =
    match parser o with
    | None => (<[self := set_table <[arb_id m := m]> o]> h, Ok self)
    | Some p =>
        match parse p m with
        | Ok text =>
            (<[self := set_table <[arb_id m := set_message m text]> o]> h,
             Ok self)
        | Raise e => (h, Raise e)
        end
    end.
Proof.
  intros Hl. unfold __add__. rewrite (invoke_at _ _ _ _ Hl). st_unfold.
  destruct (parser o) as [p|]; simpl; [|done].
  destruct (parse p m); simpl; [done|]. by rewrite insert_id.
Qed.

Lemma len_at h self o :
  h !! self = Some o →
  __len__ self h = (h, Ok (PyInt (Z.of_nat (size (table o))))).
Proof.
  intros Hl. unfold __len__. rewrite (invoke_at _ _ _ _ Hl).
  unfold len_table. st_unfold. simpl. by rewrite insert_id.
Qed.

Lemma iter_at h self o :
  h !! self = Some o →
  __iter__ self h = (<[self := set_keys (sorted_keys o) o]> h, Ok self).
Proof.
  intros Hl. unfold __iter__. by rewrite (invoke_at _ _ _ _ Hl).
Qed.

Lemma call_at h self o (start stop : Z) :
  h !! self = Some o →
  let n := Z.of_nat (size (table o)) in
  let e := Z.min stop n in
  let s := Z.min start e in
  __call__ self (PyInt start) (PyInt stop) h =
    (<[self := set_start (PyInt s) (set_stop (PyInt e) o)]> h, Ok self).
Proof.
  intros Hl. cbv zeta. unfold __call__. rewrite (invoke_at _ _ _ _ Hl).
  unfold len_table. st_unfold. simpl.
  set (n := Z.of_nat (size (table o))).
  destruct (Z.min_spec stop n) as [[? ->]|[? ->]];
    [rewrite bool_decide_eq_true_2 by lia
    |rewrite bool_decide_eq_false_2 by lia]; simpl.
  - destruct (Z.min_spec start stop) as [[? ->]|[? ->]];
      [rewrite bool_decide_eq_true_2 by lia
      |rewrite bool_decide_eq_false_2 by lia]; done.
  - destruct (Z.min_spec start n) as [[? ->]|[? ->]];
      [rewrite bool_decide_eq_true_2 by lia
      |rewrite bool_decide_eq_false_2 by lia]; done.
Qed.

Lemma call_none_at h self o start :
  h !! self = Some o →
  __call__ self start PyNone h = (h, Raise TypeError).
Proof.
  intros Hl. unfold __call__. rewrite (invoke_at _ _ _ _ Hl).
  unfold len_table. st_unfold. simpl. by rewrite insert_id.
Qed.

(** [sorted(list(self.table.keys()))] lists every key once, in ascending
    order. *)

Lemma sorted_keys_perm o : sorted_keys o ≡ₚ (map_to_list (table o)).*1.
Proof. apply merge_sort_Permutation. Qed.

Lemma elem_of_sorted_keys o k : k ∈ sorted_keys o ↔ is_Some (table o !! k).
Proof.
  rewrite sorted_keys_perm, list_elem_of_fmap. split.
  - intros [[k' m] [-> Hin]]. apply elem_of_map_to_list in Hin. by eexists.
  - intros [m Hm]. exists (k, m). split; [done|]. by apply elem_of_map_to_list.
Qed.

Lemma length_sorted_keys o : length (sorted_keys o) = size (table o).
Proof.
  rewrite sorted_keys_perm, length_fmap. apply length_map_to_list.
Qed.

Lemma NoDup_sorted_keys o : NoDup (sorted_keys o).
Proof. rewrite sorted_keys_perm. apply NoDup_fst_map_to_list. Qed.

Lemma StronglySorted_le_lt (l : list Z) :
  StronglySorted Z.le l → NoDup l → StronglySorted Z.lt l.
Proof.
  induction 1 as [|x l Hs IH Hall]; intros Hnd; [constructor|].
  apply NoDup_cons in Hnd as [Hx Hnd]. constructor; [by apply IH|].
  rewrite Forall_forall in Hall. apply Forall_forall. intros y Hy.
  assert (x ≠ y) by (intros ->; done).
  specialize (Hall y Hy). lia.
Qed.

Lemma sorted_keys_ascending o : StronglySorted Z.lt (sorted_keys o).
Proof.
  apply StronglySorted_le_lt; [|apply NoDup_sorted_keys].
  apply (StronglySorted_merge_sort Z.le).
Qed.

(** Indexing with a cursor that is inside the list. *)

Lemma py_index_inside {A} (l : list A) (i : Z) x :
  py_index l (PyInt i) = Ok x →
  (- Z.of_nat (length l) ≤ i < Z.of_nat (length l))%Z.
Proof.
  unfold py_index. cbv zeta. intros Hx.
  destruct (bool_decide (i < 0)%Z) eqn:Hneg;
    [apply bool_decide_eq_true in Hneg|apply bool_decide_eq_false in Hneg];
    case_bool_decide; try done; clear Hx; lia.
Qed.

Lemma py_index_nonneg {A} (l : list A) (i : Z) :
  (0 ≤ i < Z.of_nat (length l))%Z →
  ∃ x, l !! Z.to_nat i = Some x ∧ py_index l (PyInt i) = Ok x.
Proof.
  intros Hi. destruct (lookup_lt_is_Some_2 l (Z.to_nat i)) as [x Hx]; [lia|].
  exists x. split; [done|]. unfold py_index. cbv zeta.
  rewrite (bool_decide_eq_false_2 (i < 0)%Z) by lia.
  rewrite bool_decide_eq_true_2 by lia. by rewrite Hx.
Qed.

Lemma py_index_elem_of {A} (l : list A) (i : value) x :
  py_index l i = Ok x → x ∈ l.
Proof.
  unfold py_index. destruct i as [i|]; [|done].
  case_bool_decide; [|done].
  destruct (l !! _) as [y|] eqn:Hy; simpl; [|done].
  intros [= ->]. by eapply list_elem_of_lookup_2.
Qed.

(** The three ways a call of [__next__] can go. *)

Lemma next_cases h self o :
  h !! self = Some o →
  (∃ v, __start o = Some v ∧ __stop o = Some v ∧
        __next__ self h = (h, Raise StopIteration))
  ∨ (∃ s e ks k m,
        __start o = Some (PyInt s) ∧ __stop o = Some e ∧ e ≠ PyInt s ∧
        __keys o = Some ks ∧ py_index ks (PyInt s) = Ok k ∧
        table o !! k = Some m ∧
        __next__ self h =
          (<[self := set_start (PyInt (s + 1)) o]> h, Ok m))
  ∨ (∃ e, e ≠ StopIteration ∧ __next__ self h = (h, Raise e)).
Proof.
  intros Hl. unfold __next__. rewrite (invoke_at _ _ _ _ Hl). st_unfold.
  destruct o as [p tb oks ov oe]. simpl.
  destruct ov as [v|]; simpl;
    [|right; right; exists AttributeError; rewrite insert_id by done;
      by split].
  destruct oe as [e|]; simpl;
    [|right; right; exists AttributeError; rewrite insert_id by done;
      by split].
  case_bool_decide as Hve; simpl.
  { left. exists v. subst e. by rewrite insert_id. }
  right.
  destruct oks as [ks|]; simpl;
    [|right; exists AttributeError; rewrite insert_id by done; by split].
  destruct (py_index ks v) as [k|ex] eqn:Hk; simpl; cycle 1.
  { right. exists ex. rewrite insert_id by done. split; [|done].
    unfold py_index in Hk. destruct v; [|by inversion Hk].
    case_bool_decide; [|by inversion Hk].
    destruct (ks !! _); simpl in Hk; by inversion Hk. }
  destruct (tb !! k) as [m|] eqn:Hm; simpl;
    [|right; exists KeyError; rewrite insert_id by done; by split].
  destruct v as [s|]; [|done]. simpl.
  left. exists s, e, ks, k, m. repeat split; try done.
Qed.

(** An iteration ends: each successful call of [__next__] moves a cursor
    that is inside [-len, len) one step closer to [len]. *)

Lemma consume_terminates fuel it h o ks :
  h !! it = Some o → __keys o = Some ks → 0 < fuel →
  (∀ s, __start o = Some (PyInt s) → (- Z.of_nat (length ks) ≤ s)%Z →
        Z.to_nat (Z.of_nat (length ks) - s) < fuel) →
  is_Some (consume fuel it h).
Proof.
  revert h o. induction fuel as [|fuel IH]; intros h o Hl Hks Hpos Hbound;
    [lia|].
  simpl. destruct (next_cases h it o Hl)
    as [(v & _ & _ & ->)|[(s & e & ks' & k & m & Hs & _ & _ & Hks' & Hk & _ & ->)
                         |(e & _ & ->)]]; [by eexists| |by eexists].
  rewrite Hks in Hks'. injection Hks' as <-.
  apply py_index_inside in Hk. specialize (Hbound s Hs (proj1 Hk)).
  destruct (IH (<[it := set_start (PyInt (s + 1)) o]> h)
               (set_start (PyInt (s + 1)) o)) as [[[h' ms] e'] ->].
  - apply lookup_insert_eq.
  - done.
  - lia.
  - simpl. intros s' [= <-] _. lia.
  - by eexists.
Qed.

Lemma for_in_terminates self h o :
  h !! self = Some o → is_Some (for_in self h).
Proof.
  intros Hl. unfold for_in. rewrite (iter_at _ _ _ Hl).
  unfold enough_fuel. rewrite lookup_insert_eq.
  eapply (consume_terminates _ _ _ _ (sorted_keys o)).
  - apply lookup_insert_eq.
  - done.
  - lia.
  - cbn [set_keys table]. rewrite length_sorted_keys. intros s _ Hs. lia.
Qed.

(** An iteration changes nothing but the cursor of the table it runs on,
    hands out entries of that table only, and when it ends by
    [StopIteration] the cursor has reached [__stop]. *)

Lemma consume_frame fuel it h o h' ms e :
  h !! it = Some o → consume fuel it h = Some (h', ms, e) →
  ∃ o', h' = <[it := o']> h ∧
        parser o' = parser o ∧ table o' = table o ∧
        __keys o' = __keys o ∧ __stop o' = __stop o ∧
        Forall (λ m, ∃ k, table o !! k = Some m) ms ∧
        (e = StopIteration → is_Some (__start o') ∧ __start o' = __stop o').
Proof.
  revert h o h' ms. induction fuel as [|fuel IH]; intros h o h' ms Hl Hc;
    [done|].
  simpl in Hc. destruct (next_cases h it o Hl)
    as [(v & Hv & He & Hn)|[(s & e0 & ks & k & m & Hs & He & Hne & Hks & Hk & Hm & Hn)
                          |(e0 & Hne & Hn)]]; rewrite Hn in Hc.
  - injection Hc as <- <- <-. exists o. rewrite insert_id by done.
    split_and!; try done. intros _. by rewrite Hv, He.
  - destruct (consume fuel it _) as [[[h1 ms1] e1]|] eqn:Hc1; [|done].
    simpl in Hc. injection Hc as <- <- <-.
    destruct (IH _ (set_start (PyInt (s + 1)) o) _ _
                 (lookup_insert_eq _ _ _) Hc1)
      as (o' & -> & Hp & Ht & Hk' & Hst & Hall & Hend).
    exists o'. rewrite insert_insert_eq. split_and!; try done.
    constructor; [by exists k|done].
  - injection Hc as <- <- <-. exists o. rewrite insert_id by done.
    split_and!; done.
Qed.

Lemma next_stop h self o v :
  h !! self = Some o → __start o = Some v → __stop o = Some v →
  __next__ self h = (h, Raise StopIteration).
Proof.
  intros Hl Hv He. unfold __next__. rewrite (invoke_at _ _ _ _ Hl). st_unfold.
  destruct o as [p tb oks ov oe]. simpl in *. subst ov oe. simpl.
  rewrite bool_decide_eq_true_2 by done. simpl. by rewrite insert_id.
Qed.

Lemma next_yield h self o s e ks k m :
  h !! self = Some o →
  __start o = Some (PyInt s) → __stop o = Some e → e ≠ PyInt s →
  __keys o = Some ks → py_index ks (PyInt s) = Ok k → table o !! k = Some m →
  __next__ self h = (<[self := set_start (PyInt (s + 1)) o]> h, Ok m).
Proof.
  intros Hl Hv He Hne Hks Hk Hm. unfold __next__.
  rewrite (invoke_at _ _ _ _ Hl). st_unfold.
  destruct o as [p tb oks ov oe]. simpl in *. subst ov oe oks. simpl.
  rewrite bool_decide_eq_false_2 by congruence. simpl.
  rewrite Hk. simpl. rewrite Hm. done.
Qed.

(** The window: with the cursor at [s] and [__stop] at [e], where
    [0 ≤ s ≤ e ≤ len] (or [s = e]), the iteration hands out the entries
    under the keys at the indices [s], ..., [e - 1] and stops. *)

Lemma consume_window fuel it h o ks s e :
  h !! it = Some o → __keys o = Some ks →
  __start o = Some (PyInt s) → __stop o = Some (PyInt e) →
  (∀ k, k ∈ ks → is_Some (table o !! k)) →
  s = e ∨ (0 ≤ s ≤ e ∧ e ≤ Z.of_nat (length ks))%Z →
  Z.to_nat (e - s) < fuel →
  ∃ ms,
    consume fuel it h =
      Some (<[it := set_start (PyInt e) o]> h, ms, StopIteration) ∧
    Forall2 (λ k m, table o !! k = Some m)
            (take (Z.to_nat (e - s)) (drop (Z.to_nat s) ks)) ms.
Proof.
  revert h o s. induction fuel as [|fuel IH];
    intros h o s Hl Hks Hs He Hdom Hrange Hfuel; [lia|].
  destruct (decide (s = e)) as [->|Hne].
  - exists []. simpl. rewrite (next_stop _ _ _ _ Hl Hs He).
    replace (set_start (PyInt e) o) with o
      by (destruct o; simpl in *; by subst).
    rewrite insert_id by done. split; [done|].
    rewrite Z.sub_diag. simpl. constructor.
  - destruct Hrange as [?|[Hse Hlen]]; [done|].
    destruct (py_index_nonneg ks s) as (k & Hk & Hidx); [lia|].
    destruct (Hdom k) as [m Hm]; [by eapply list_elem_of_lookup_2|].
    destruct (IH (<[it := set_start (PyInt (s + 1)) o]> h)
                 (set_start (PyInt (s + 1)) o) (s + 1)%Z)
      as (ms & Hc & Hall); try done.
    { apply lookup_insert_eq. }
    { right. lia. }
    { lia. }
    exists (m :: ms). split.
    + simpl. rewrite (next_yield _ _ _ s (PyInt e) ks k m Hl); try done;
        [|congruence].
      rewrite Hc. simpl. by rewrite insert_insert_eq.
    + replace (Z.to_nat (e - s)) with (S (Z.to_nat (e - (s + 1)))) by lia.
      rewrite (drop_S _ k _ Hk). simpl. constructor; [done|].
      by replace (S (Z.to_nat s)) with (Z.to_nat (s + 1)) by lia.
Qed.

(** * The claims about the message table *)

(** The selection of a window with a start that is not negative, and the
    iteration over it. *)
Lemma window_slice h self o (start stop : Z) :
  h !! self = Some o → (0 ≤ start)%Z →
  let n := Z.of_nat (size (table o)) in
  let e := Z.min stop n in
  let s := Z.min start e in
  ∃ h1 h2 ms,
    __call__ self (PyInt start) (PyInt stop) h = (h1, Ok self) ∧
    for_in self h1 = Some (h2, ms, StopIteration) ∧
    Forall2 (λ k m, table o !! k = Some m)
            (take (Z.to_nat (e - s)) (drop (Z.to_nat s) (sorted_keys o))) ms ∧
    StronglySorted Z.lt (sorted_keys o) ∧
    (∀ k, k ∈ sorted_keys o ↔ is_Some (table o !! k)) ∧
    Z.of_nat (length ms) = Z.max 0 (e - s).
Proof.
  intros Hl Hstart n e s.
  pose proof (call_at h self o start stop Hl) as Hcall. cbv zeta in Hcall.
  fold n e s in Hcall.
  set (o1 := set_start (PyInt s) (set_stop (PyInt e) o)) in *.
  set (h1 := <[self := o1]> h) in *.
  assert (Hl1 : h1 !! self = Some o1) by apply lookup_insert_eq.
  assert (Hlen : Z.of_nat (length (sorted_keys o)) = n)
    by (unfold n; by rewrite length_sorted_keys).
  assert (Hrange : s = e ∨ (0 ≤ s ≤ e ∧ e ≤ Z.of_nat (length (sorted_keys o)))%Z)
    by (rewrite Hlen; unfold s, e; lia).
  destruct (consume_window (enough_fuel self
                              (<[self := set_keys (sorted_keys o1) o1]> h1))
              self (<[self := set_keys (sorted_keys o1) o1]> h1)
              (set_keys (sorted_keys o1) o1) (sorted_keys o) s e)
    as (ms & Hc & Hall); try done.
  { apply lookup_insert_eq. }
  { intros k. apply elem_of_sorted_keys. }
  { unfold enough_fuel. rewrite lookup_insert_eq. cbn [set_keys table o1
      set_start set_stop]. unfold s, e, n. lia. }
  eexists h1, _, ms. split; [done|]. split.
  { unfold for_in. rewrite (iter_at _ _ _ Hl1). exact Hc. }
  split; [done|]. split; [apply sorted_keys_ascending|].
  split; [apply elem_of_sorted_keys|].
  apply Forall2_length in Hall. rewrite <- Hall, length_take, length_drop.
  unfold s, e in *. lia.
Qed.


(** Further below zero the cursor leaves the key list: [table(-5, -1)] on
    the same table raises [IndexError] before it hands out anything. *)
Lemma window_far_negative_start_raises :
  ∃ h1 h2,
    __call__ 1%positive (PyInt (-5)) (PyInt (-1)) Examples.three
      = (h1, Ok 1%positive) ∧
    for_in 1%positive h1 = Some (h2, [], IndexError).
Proof.
  eexists _, _. split; [vm_compute; reflexivity|]. vm_compute. reflexivity.
Qed.

(** The scenario of the spec: device A delivers the ids 0x701 and 0x181,
    device B delivers 0x701 and 0x80; the table then has three entries and
    [table(0, 3)] hands them out as 0x80, 0x181, 0x701, the entry of 0x701
    being the one written last. *)
Lemma two_devices_scenario :
  ∃ h self h1 h2 ms,
    (self ← __init__ None;
     add_all self [mkMessage 0x701 HEARTBEAT UNKNOWN "A";
                   mkMessage 0x181 PDO UNKNOWN "A";
                   mkMessage 0x701 HEARTBEAT UNKNOWN "B";
                   mkMessage 0x80 SYNC UNKNOWN "B"];;
     mret self) ∅ = (h, Ok self) ∧
    __len__ self h = (h, Ok (PyInt 3)) ∧
    __call__ self (PyInt 0) (PyInt 3) h = (h1, Ok self) ∧
    for_in self h1 = Some (h2, ms, StopIteration) ∧
    arb_id <$> ms = [0x80; 0x181; 0x701]%Z ∧
    message <$> ms = ["B"; "A"; "B"].
Proof.
  eexists _, _, _, _, _. split; [vm_compute; reflexivity|].
  split; [vm_compute; reflexivity|]. split; [vm_compute; reflexivity|].
  split; [vm_compute; reflexivity|]. split; reflexivity.
Qed.



Lemma invoke_same_ref {A} (body : ST t A) h self o h' r :
  h !! self = Some o → invoke self body h = (h', r) →
  ∃ o', h' = <[self := o']> h.
Proof.
  intros Hl. rewrite (invoke_at _ _ _ _ Hl). intros [= <- _]. by eexists.
Qed.

Lemma set_keys_same o ks : __keys o = Some ks → set_keys ks o = o.
Proof. destruct o. simpl. by intros ->. Qed.

(** C9: once the iteration over a selection [table(start, stop)] has been
    exhausted, iterating the table again without a new selection hands out
    no message and leaves the table as it is; inserting a message in
    between does not bring the selection back either. *)
Theorem iteration_consumes_selection h self o start stop h1 h2 ms :
  h !! self = Some o →
  __call__ self start stop h = (h1, Ok self) →
  for_in self h1 = Some (h2, ms, StopIteration) →
  for_in self h2 = Some (h2, [], StopIteration) ∧
  ∀ m h3, __add__ self m h2 = (h3, Ok self) →
          ∃ h4, for_in self h3 = Some (h4, [], StopIteration).
Proof.
  intros Hl Hcall Hfor.
  destruct (invoke_same_ref _ _ _ _ _ _ Hl Hcall) as [o1 ->].
  assert (Hl1 : <[self := o1]> h !! self = Some o1) by apply lookup_insert_eq.
  unfold for_in in Hfor. rewrite (iter_at _ _ _ Hl1) in Hfor.
  destruct (consume_frame _ _ _ (set_keys (sorted_keys o1) o1) _ _ _
              (lookup_insert_eq _ _ _) Hfor)
    as (o2 & -> & Hp & Ht & Hk & He & _ & Hend).
  destruct (Hend eq_refl) as [[v Hv] Hvs]. rewrite Hv in Hvs.
  rewrite !insert_insert_eq.
  set (h2 := <[self := o2]> h).
  assert (Hl2 : h2 !! self = Some o2) by apply lookup_insert_eq.
  split.
  - unfold for_in. rewrite (iter_at _ _ _ Hl2).
    assert (Hsame : set_keys (sorted_keys o2) o2 = o2).
    { apply set_keys_same. rewrite Hk. unfold sorted_keys. by rewrite Ht. }
    rewrite Hsame, (insert_id h2) by done.
    unfold enough_fuel. rewrite Hl2. cbn [consume].
    by rewrite (next_stop _ _ _ v Hl2).
  - intros m h3 Hadd. rewrite (add_at _ _ _ _ Hl2) in Hadd.
    assert (∃ o3, h3 = <[self := o3]> h2 ∧
                  __start o3 = Some v ∧ __stop o3 = Some v)
      as (o3 & -> & Hv3 & Hs3).
    { destruct (parser o2) as [p|]; [destruct (parse p m)|]; [| done |];
        injection Hadd as <-; eexists; split_and!; done. }
    assert (Hl3 : <[self := o3]> h2 !! self = Some o3)
      by apply lookup_insert_eq.
    eexists. unfold for_in. rewrite (iter_at _ _ _ Hl3).
    unfold enough_fuel. rewrite lookup_insert_eq. cbn [consume].
    by rewrite (next_stop _ _ (set_keys (sorted_keys o3) o3) v
                  (lookup_insert_eq _ _ _)).
Qed.

(** On the table with the ids 1, 2, 3: [table(0, 3)] hands out three
    entries once, and nothing the second time. *)
Lemma iteration_consumes_selection_witness :
  ∃ h1 h2 ms,
    __call__ 1%positive (PyInt 0) (PyInt 3) Examples.three
      = (h1, Ok 1%positive) ∧
    for_in 1%positive h1 = Some (h2, ms, StopIteration) ∧
    length ms = 3 ∧
    for_in 1%positive h2 = Some (h2, [], StopIteration).
Proof.
  eexists _, _, _. split; [vm_compute; reflexivity|].
  split; [vm_compute; reflexivity|]. split; [reflexivity|].
  eapply (iteration_consumes_selection Examples.three 1%positive _
            (PyInt 0) (PyInt 3)).
  - reflexivity.
  - vm_compute. reflexivity.
  - vm_compute. reflexivity.
Defined.

(** C10: the selection with the default second argument, [table(start)],
    raises [TypeError] and assigns nothing, whatever the table and
    [start] are, while every selection with two integers is accepted. *)
Theorem call_default_stop_raises h self o start :
  h !! self = Some o →
  __call__ self start PyNone h = (h, Raise TypeError) ∧
  ∀ a b : Z, ∃ h', __call__ self (PyInt a) (PyInt b) h = (h', Ok self).
Proof.
  intros Hl. split; [by eapply call_none_at|].
  intros a b. eexists. by apply call_at.
Qed.

(** [table(0)] on the table with the ids 1, 2, 3. *)
Lemma call_default_stop_raises_witness :
  __call__ 1%positive (PyInt 0) PyNone Examples.three
    = (Examples.three, Raise TypeError).
Proof.
  eapply (proj1 (call_default_stop_raises Examples.three 1%positive _
                   (PyInt 0) _)).
  Unshelve. 2: reflexivity.
Defined.

(** C4, as the spec states it, fails when the parser raises: the insert
    raises the parser's exception and the message is not stored. *)
Lemma add_parser_failure_aborts :
  __add__ 1%positive Examples.m1 (Examples.empty_with (Some Examples.deaf))
    = (Examples.empty_with (Some Examples.deaf), Raise ParserError) ∧
  ∀ o, Examples.empty_with (Some Examples.deaf) !! 1%positive = Some o →
       table o !! arb_id Examples.m1 = None.
Proof.
  split.
  - by rewrite (add_at _ _ (mk (Some Examples.deaf) ∅ None None None)).
  - intros o [= <-]. done.
Qed.

(** C4 (as amended): an insert into a table without a parser stores the
    message with its text unchanged; with a parser whose [parse] returns,
    it stores the message with the decoded text; with a parser whose
    [parse] raises, the exception leaves the insert and the store is as it
    was. *)
Theorem add_stores_raw_or_decoded h self o m :
  h !! self = Some o →
  (parser o = None →
   __add__ self m h = (<[self := set_table <[arb_id m := m]> o]> h, Ok self))
  ∧ (∀ p text, parser o = Some p → parse p m = Ok text →
       __add__ self m h =
         (<[self := set_table <[arb_id m := set_message m text]> o]> h,
          Ok self))
  ∧ (∀ p e, parser o = Some p → parse p m = Raise e →
       __add__ self m h = (h, Raise e)).
Proof.
  intros Hl. rewrite (add_at _ _ _ _ Hl). split_and!.
  - by intros ->.
  - by intros p text -> ->.
  - by intros p e -> ->.
Qed.

(** An insert into an empty table without a parser. *)
Lemma add_stores_raw_or_decoded_witness :
  __add__ 1%positive Examples.m1 (Examples.empty_with None)
    = (<[1%positive := set_table <[1%Z := Examples.m1]>
                         (mk None ∅ None None None)]>
         (Examples.empty_with None), Ok 1%positive).
Proof.
  apply (proj1 (add_stores_raw_or_decoded (Examples.empty_with None)
                  1%positive (mk None ∅ None None None) Examples.m1
                  eq_refl)).
  reflexivity.
Defined.

(** ** Filtering *)

Lemma selected_spec types v :
  selected types v = true ↔ type v ∈ types ∨ supertype v ∈ types.
Proof.
  unfold selected. rewrite orb_true_iff, !bool_decide_eq_true. done.
Qed.

Lemma selected_app T1 T2 v :
  selected (T1 ++ T2) v = selected T1 v || selected T2 v.
Proof.
  apply eq_true_iff_eq. rewrite orb_true_iff, !selected_spec.
  rewrite !elem_of_app. tauto.
Qed.

Lemma keep_all_lookup types (items : list (Z * Message)) k v :
  NoDup items.*1 →
  foldl (keep types) ∅ items !! k = Some v ↔
  (k, v) ∈ items ∧ selected types v = true.
Proof.
  induction items as [|[k0 v0] items IH] using rev_ind; intros Hnd.
  { simpl. rewrite lookup_empty. split; [done|]. intros [Hin _].
    by apply elem_of_nil in Hin. }
  rewrite fmap_app in Hnd. apply NoDup_app in Hnd as (Hnd & Hfresh & _).
  assert (Hk0 : ∀ v', (k0, v') ∉ items).
  { intros v' Hin. apply (Hfresh k0).
    - apply list_elem_of_fmap. by exists (k0, v').
    - simpl. apply list_elem_of_here. }
  rewrite foldl_app. simpl. unfold keep at 1. simpl.
  rewrite elem_of_app, list_elem_of_singleton.
  destruct (selected types v0) eqn:Hsel.
  - destruct (decide (k = k0)) as [->|Hne].
    + rewrite lookup_insert_eq. split.
      * intros [= ->]. split; [by right|done].
      * intros [[Hin|[= ->]] _]; [by apply Hk0 in Hin|done].
    + rewrite lookup_insert_ne by done. rewrite (IH Hnd). split.
      * intros [Hin ?]. split; [by left|done].
      * intros [[Hin|[= -> ->]] ?]; [done|done].
  - rewrite (IH Hnd). split.
    + intros [Hin ?]. split; [by left|done].
    + intros [[Hin|[= -> ->]] ?]; [done|congruence].
Qed.

Lemma set_table_same o : set_table (λ _, table o) o = o.
Proof. by destruct o. Qed.

Lemma filter_loop types items (h : heap) f o :
  h !! f = Some o →
  for_list items (λ '(k, v),
    if bool_decide (type v ∈ types) || bool_decide (supertype v ∈ types)
    then invoke f (modify (set_table <[k := v]>))
    else mret tt) h
  = (<[f := set_table (λ _, foldl (keep types) (table o) items) o]> h, Ok tt).
Proof.
  revert h o. induction items as [|[k v] items IH]; intros h o Hl.
  { simpl. rewrite set_table_same, insert_id by done. done. }
  cbn [for_list]. unfold mbind at 1, ST_bind at 1. cbn [foldl].
  unfold keep at 2, selected. cbn [fst snd].
  destruct (bool_decide (type v ∈ types) || bool_decide (supertype v ∈ types)).
  - rewrite (invoke_at _ _ _ _ Hl). unfold modify at 1. cbn [fst snd].
    rewrite (IH _ (set_table <[k := v]> o)) by apply lookup_insert_eq.
    by rewrite insert_insert_eq.
  - unfold mret at 1, ST_ret at 1. by rewrite (IH _ o).
Qed.

(** What [filter] returns, and the store it leaves. *)
Lemma filter_at h self o types :
  h !! self = Some o →
  filter self types h =
    (<[fresh (dom h) :=
         mk (parser o) (foldl (keep types) ∅ (map_to_list (table o)))
            None None None]> h,
     Ok (fresh (dom h))).
Proof.
  intros Hl. unfold filter.
  assert (Hnew : fresh (dom h) ≠ self).
  { intros Heq. apply (is_fresh (dom h)). rewrite Heq.
    apply elem_of_dom. by eexists. }
  unfold mbind at 1, ST_bind at 1. rewrite (invoke_at _ _ _ _ Hl).
  unfold gets at 1. cbn [fst snd]. rewrite insert_id by done.
  unfold mbind at 1, ST_bind at 1. unfold __init__ at 1. cbv zeta.
  set (new := fresh (dom h)) in *.
  set (h1 := <[new := mk (parser o) ∅ None None None]> h).
  assert (Hl1 : h1 !! self = Some o)
    by (unfold h1; by rewrite lookup_insert_ne).
  unfold mbind at 1, ST_bind at 1. rewrite (invoke_at _ _ _ _ Hl1).
  unfold gets at 1. cbn [fst snd]. rewrite insert_id by done.
  unfold mbind at 1, ST_bind at 1.
  rewrite (filter_loop types _ h1 new (mk (parser o) ∅ None None None))
    by apply lookup_insert_eq.
  unfold h1. rewrite insert_insert_eq. done.
Qed.

Lemma filtered_lookup types (tb : gmap Z Message) k v :
  foldl (keep types) ∅ (map_to_list tb) !! k = Some v ↔
  tb !! k = Some v ∧ selected types v = true.
Proof.
  rewrite keep_all_lookup by apply NoDup_fst_map_to_list.
  by rewrite elem_of_map_to_list.
Qed.

Lemma fresh_not_in_store (h : heap) : h !! fresh (dom h) = None.
Proof. apply not_elem_of_dom, is_fresh. Qed.

(** C6: [t.filter(T)] returns a reference that was not in use; the object
    behind it holds exactly the entries of [t] whose type or supertype is
    in [T] and has the parser of [t]; every object that was in the store,
    [t] among them, is as it was. *)
Theorem filter_returns_fresh_selection h self o types :
  h !! self = Some o →
  ∃ h' new o',
    filter self types h = (h', Ok new) ∧
    h !! new = None ∧
    (∀ l, l ≠ new → h' !! l = h !! l) ∧
    h' !! self = Some o ∧
    h' !! new = Some o' ∧
    parser o' = parser o ∧
    ∀ k v, table o' !! k = Some v ↔
           table o !! k = Some v ∧ (type v ∈ types ∨ supertype v ∈ types).
Proof.
  intros Hl. eexists _, _, _. split; [by apply filter_at|].
  assert (Hnone := fresh_not_in_store h).
  split_and!.
  - done.
  - intros l Hne. by rewrite lookup_insert_ne.
  - rewrite lookup_insert_ne; [done|]. intros Heq. congruence.
  - apply lookup_insert_eq.
  - done.
  - intros k v. cbn [table]. by rewrite filtered_lookup, selected_spec.
Qed.

(** [filter([SDO])] on the table with the ids 1, 2, 3. *)
Lemma filter_returns_fresh_selection_witness :
  ∃ h' new o',
    filter 1%positive [SDO] Examples.three = (h', Ok new) ∧
    new ≠ 1%positive ∧
    h' !! new = Some o' ∧
    (table o' !! 1%Z = Some Examples.m1 ↔
     Examples.three !! 1%positive ≫= (λ o, table o !! 1%Z) = Some Examples.m1
     ∧ (type Examples.m1 ∈ [SDO] ∨ supertype Examples.m1 ∈ [SDO])).
Proof.
  destruct (filter_returns_fresh_selection Examples.three 1%positive
              (mk None (<[1%Z := Examples.m1]>
                          (<[2%Z := Examples.m2]> {[ 3%Z := Examples.m3 ]}))
                  None None None) [SDO] eq_refl)
    as (h' & new & o' & Hf & Hnone & _ & _ & Hnew & _ & Htb).
  exists h', new, o'. split; [exact Hf|]. split.
  - intros ->. discriminate Hnone.
  - split; [exact Hnew|]. exact (Htb 1%Z Examples.m1).
Defined.

(** [__call__] touches the cursor of its table only. *)
Lemma call_frame h self o start stop h' r :
  h !! self = Some o → __call__ self start stop h = (h', r) →
  ∃ o', h' = <[self := o']> h ∧ table o' = table o ∧ parser o' = parser o.
Proof.
  intros Hl. unfold __call__. rewrite (invoke_at _ _ _ _ Hl).
  unfold len_table. st_unfold. destruct o as [p tb oks ov oe].
  destruct stop as [b|], start as [a|]; simpl;
    repeat (case_bool_decide; simpl);
    intros [= <- _]; by eexists.
Qed.

(** Whatever an iteration hands out is an entry of the table. *)
Lemma for_in_entries self h o h' ms e :
  h !! self = Some o → for_in self h = Some (h', ms, e) →
  ∀ m, m ∈ ms → ∃ k, table o !! k = Some m.
Proof.
  intros Hl. unfold for_in. rewrite (iter_at _ _ _ Hl). intros Hc.
  destruct (consume_frame _ _ _ (set_keys (sorted_keys o) o) _ _ _
              (lookup_insert_eq _ _ _) Hc) as (_ & _ & _ & _ & _ & _ & Hall & _).
  intros m Hm. rewrite Forall_forall in Hall. by apply Hall.
Qed.

(** The full window [table(0, len(table))] hands out every entry. *)
Lemma full_window h self o :
  h !! self = Some o →
  ∃ h1 h2 ms,
    (n ← __len__ self; __call__ self (PyInt 0) n) h = (h1, Ok self) ∧
    for_in self h1 = Some (h2, ms, StopIteration) ∧
    ∀ k m, table o !! k = Some m → m ∈ ms.
Proof.
  intros Hl.
  destruct (window_slice h self o 0 (Z.of_nat (size (table o))) Hl)
    as (h1 & h2 & ms & Hcall & Hfor & Hall & _ & Hkeys & _); [done|].
  exists h1, h2, ms. split.
  { unfold mbind, ST_bind. by rewrite (len_at _ _ _ Hl). }
  split; [done|]. intros k m Hm.
  rewrite Z.min_id, Z.min_l, Z.sub_0_r, Nat2Z.id in Hall by lia.
  change (Z.to_nat 0) with 0 in Hall. rewrite drop_0 in Hall.
  rewrite <- length_sorted_keys, firstn_all in Hall.
  assert (k ∈ sorted_keys o) as Hk by (apply Hkeys; by eexists).
  apply list_elem_of_lookup in Hk as [i Hi].
  destruct (Forall2_lookup_l _ _ _ _ _ Hall Hi) as (m' & Hm' & Hkm).
  rewrite Hm in Hkm. injection Hkm as <-. by eapply list_elem_of_lookup_2.
Qed.

(** C7, as the spec states it, fails: on the table with the ids 1, 2, 3,
    with [T1 = [SDO]] and [T2 = [PDO]], the window [(0, 1)] of
    [filter(T1).filter(T2)] hands out the message with id 2, and the same
    window of [filter(T1 ∪ T2)] hands out the message with id 1 only. *)
Lemma filter_twice_window_escapes_union_window :
  ∃ h1 w12 h2 ms12 h1' wu h2' msu,
    (f1 ← filter 1%positive [SDO]; f2 ← filter f1 [PDO];
     __call__ f2 (PyInt 0) (PyInt 1)) Examples.three = (h1, Ok w12) ∧
    for_in w12 h1 = Some (h2, ms12, StopIteration) ∧
    (f ← filter 1%positive ([SDO] ++ [PDO]);
     __call__ f (PyInt 0) (PyInt 1)) Examples.three = (h1', Ok wu) ∧
    for_in wu h1' = Some (h2', msu, StopIteration) ∧
    ms12 = [Examples.m2] ∧ msu = [Examples.m1] ∧
    ¬ (∀ m, m ∈ ms12 → m ∈ msu).
Proof.
  eexists _, _, _, _, _, _, _, _.
  split; [vm_compute; reflexivity|]. split; [vm_compute; reflexivity|].
  split; [vm_compute; reflexivity|]. split; [vm_compute; reflexivity|].
  split; [reflexivity|]. split; [reflexivity|].
  intros Hsub. specialize (Hsub Examples.m2 (list_elem_of_here _ _)).
  apply list_elem_of_singleton in Hsub. discriminate Hsub.
Qed.

(** C7 (as amended): for all [T1], [T2] and all window bounds, every
    message that an iteration over a window of [filter(T1).filter(T2)]
    hands out is handed out by the iteration over the full window
    [(0, size)] of [filter(T1 ∪ T2)], which ends by [StopIteration]. *)
Theorem filter_twice_within_union h self o T1 T2 start stop :
  h !! self = Some o →
  ∃ hu wu hu' msu,
    (f ← filter self (T1 ++ T2); n ← __len__ f; __call__ f (PyInt 0) n) h
      = (hu, Ok wu) ∧
    for_in wu hu = Some (hu', msu, StopIteration) ∧
    ∀ h1 w12 h2 ms e,
      (f1 ← filter self T1; f2 ← filter f1 T2; __call__ f2 start stop) h
        = (h1, Ok w12) →
      for_in w12 h1 = Some (h2, ms, e) →
      ∀ m, m ∈ ms → m ∈ msu.
Proof.
  intros Hl.
  (* the union side *)
  pose proof (filter_at h self o (T1 ++ T2) Hl) as Hfu.
  set (nu := fresh (dom h)) in *.
  set (ou := mk (parser o)
                (foldl (keep (T1 ++ T2)) ∅ (map_to_list (table o)))
                None None None) in *.
  destruct (full_window (<[nu := ou]> h) nu ou (lookup_insert_eq _ _ _))
    as (hu & hu' & msu & Hcall & Hfor & Hall).
  exists hu, nu, hu', msu. split.
  { unfold mbind at 1, ST_bind at 1. rewrite Hfu. exact Hcall. }
  split; [done|].
  (* the side of the two filters *)
  intros h1 w12 h2 ms e Hchain Hfor12 m Hm.
  unfold mbind at 1, ST_bind at 1 in Hchain.
  rewrite (filter_at h self o T1 Hl) in Hchain. fold nu in Hchain.
  set (o1 := mk (parser o) (foldl (keep T1) ∅ (map_to_list (table o)))
                None None None) in *.
  set (ha := <[nu := o1]> h) in *.
  assert (Hla : ha !! nu = Some o1) by apply lookup_insert_eq.
  unfold mbind at 1, ST_bind at 1 in Hchain.
  rewrite (filter_at ha nu o1 T2 Hla) in Hchain.
  set (n2 := fresh (dom ha)) in *.
  set (o2 := mk (parser o1) (foldl (keep T2) ∅ (map_to_list (table o1)))
                None None None) in *.
  set (hb := <[n2 := o2]> ha) in *.
  assert (Hlb : hb !! n2 = Some o2) by apply lookup_insert_eq.
  destruct (__call__ n2 start stop hb) as [h1' r] eqn:Hc.
  destruct (call_frame _ _ _ _ _ _ _ Hlb Hc) as (o2' & -> & Ht2 & _).
  destruct r as [w|ex]; [|done]. injection Hchain as <- <-.
  unfold __call__ in Hc. rewrite (invoke_at _ _ _ _ Hlb) in Hc.
  assert (w = n2) as ->.
  { revert Hc. st_unfold. unfold len_table, gets.
    repeat (match goal with
            | |- context [match ?x with _ => _ end] => destruct x
            end; simpl); congruence. }
  destruct (for_in_entries n2 _ o2' _ _ _ (lookup_insert_eq _ _ _) Hfor12 m Hm)
    as [k Hk].
  rewrite Ht2 in Hk. unfold o2 in Hk. cbn [table] in Hk.
  apply filtered_lookup in Hk as [Hk Hs2].
  unfold o1 in Hk. cbn [table] in Hk.
  apply filtered_lookup in Hk as [Hk Hs1].
  apply (Hall k m). unfold ou. cbn [table]. apply filtered_lookup.
  split; [done|]. by rewrite selected_app, Hs1.
Qed.

(** The message with id 2, which the window [(0, 1)] of the double filter
    hands out, is in the full window of the union filter. *)
Lemma filter_twice_within_union_witness :
  ∃ hu wu hu' msu,
    (f ← filter 1%positive ([SDO] ++ [PDO]); n ← __len__ f;
     __call__ f (PyInt 0) n) Examples.three = (hu, Ok wu) ∧
    for_in wu hu = Some (hu', msu, StopIteration) ∧
    Examples.m2 ∈ msu.
Proof.
  destruct (filter_twice_within_union Examples.three 1%positive
              (mk None (<[1%Z := Examples.m1]>
                          (<[2%Z := Examples.m2]> {[ 3%Z := Examples.m3 ]}))
                  None None None) [SDO] [PDO] (PyInt 0) (PyInt 1) eq_refl)
    as (hu & wu & hu' & msu & Hu & Hfor & Hsub).
  exists hu, wu, hu', msu. split; [exact Hu|]. split; [exact Hfor|].
  eapply Hsub.
  - vm_compute. reflexivity.
  - vm_compute. reflexivity.
  - apply list_elem_of_here.
Defined.

(** ** Inserting *)

Lemma arb_id_stored p m : arb_id (stored p m) = arb_id m.
Proof.
  unfold stored. destruct p as [p|]; [|done]. by destruct (parse p m).
Qed.

Lemma add_parses h self o m :
  h !! self = Some o → parses (parser o) m →
  __add__ self m h =
    (<[self := set_table <[arb_id m := stored (parser o) m]> o]> h, Ok self).
Proof.
  intros Hl Hp. rewrite (add_at _ _ _ _ Hl). unfold parses, stored in *.
  destruct (parser o) as [p|]; [|done]. by destruct Hp as [text ->].
Qed.






(** * Properties of the frame bus *)

Import TheMagicCanBus.

Lemma list_remove_elem_of `{EqDecision A} (x : A) (l : list A) :
  x ∈ l →
  ∃ l1 l2, l = l1 ++ x :: l2 ∧ (x ∉ l1) ∧ list_remove x l = Ok (l1 ++ l2).
Proof.
  induction l as [|y l IH]; intros Hin; [by apply elem_of_nil in Hin|].
  simpl. destruct (decide (x = y)) as [->|Hne].
  - exists [], l. split_and!; [done| |done]. apply not_elem_of_nil.
  - apply elem_of_cons in Hin as [?|Hin]; [done|].
    destruct (IH Hin) as (l1 & l2 & -> & Hl1 & ->).
    exists (y :: l1), l2. split_and!; [done| |done].
    rewrite not_elem_of_cons. by split.
Qed.

Lemma list_remove_not_elem_of `{EqDecision A} (x : A) (l : list A) :
  x ∉ l → list_remove x l = Raise ValueError.
Proof.
  induction l as [|y l IH]; intros Hin; [done|].
  apply not_elem_of_cons in Hin as [Hne Hin]. simpl.
  destruct (decide (x = y)); [done|]. by rewrite (IH Hin).
Qed.

Lemma stop_at dev w :
  stop dev w =
    match list_remove dev (devs (bus w)) with
    | Ok ds => (upd_bus (set_devs ds) w, Ok tt)
    | Raise e => (w, Raise e)
    end.
Proof.
  unfold stop. st_unfold. by destruct (list_remove dev (devs (bus w))).
Qed.

Lemma stop_attached dev w :
  dev ∈ devs (bus w) →
  ∃ l1 l2, devs (bus w) = l1 ++ dev :: l2 ∧ (dev ∉ l1) ∧
           stop dev w = (upd_bus (set_devs (l1 ++ l2)) w, Ok tt).
Proof.
  intros Hin. destruct (list_remove_elem_of dev _ Hin)
    as (l1 & l2 & Hsplit & Hl1 & Hrem).
  exists l1, l2. split_and!; [done|done|]. by rewrite stop_at, Hrem.
Qed.

Lemma stop_detached dev w :
  dev ∉ devs (bus w) → stop dev w = (w, Raise ValueError).
Proof. intros Hin. by rewrite stop_at, (list_remove_not_elem_of _ _ Hin). Qed.

Lemma others_stay {A} (x d : A) (l1 l2 : list A) :
  d ≠ x → d ∈ l1 ++ l2 ↔ d ∈ l1 ++ x :: l2.
Proof.
  intros Hne. rewrite !elem_of_app, elem_of_cons.
  split; [intros [?|?]; auto|intros [?|[?|?]]; auto; done].
Qed.

(** C8: [stop(dev)] on an attached handle takes the first occurrence of
    that handle out of [devs] and changes nothing else: the stop signal,
    the list of threads and the thread objects, the queue, the joins and
    every other handle are as they were. *)
Theorem stop_detaches_only w dev :
  dev ∈ devs (bus w) →
  ∃ l1 l2 w',
    devs (bus w) = l1 ++ dev :: l2 ∧ (dev ∉ l1) ∧
    stop dev w = (w', Ok tt) ∧
    devs (bus w') = l1 ++ l2 ∧
    stop_listening (bus w') = stop_listening (bus w) ∧
    threads (bus w') = threads (bus w) ∧
    thread_objs w' = thread_objs w ∧
    joined w' = joined w ∧
    frames (bus w') = frames (bus w) ∧
    block (bus w') = block (bus w) ∧
    stdout w' = stdout w ∧ hw w' = hw w ∧
    ∀ d, d ≠ dev → d ∈ devs (bus w') ↔ d ∈ devs (bus w).
Proof.
  intros Hin. destruct (stop_attached dev w Hin) as (l1 & l2 & Hs & Hl1 & Hst).
  exists l1, l2, (upd_bus (set_devs (l1 ++ l2)) w).
  split_and!; try done.
  intros d Hne. cbn [upd_bus set_devs devs bus]. rewrite Hs.
  by apply others_stay.
Qed.

(** [stop(can0)] on the bus with can0 and can1. *)
Lemma stop_detaches_only_witness :
  ∃ w', stop Examples.can0 Examples.two_devices = (w', Ok tt) ∧
        devs (bus w') = [Examples.can1] ∧
        stop_listening (bus w') = false ∧
        threads (bus w') = [0; 1].
Proof.
  destruct (stop_detaches_only Examples.two_devices Examples.can0)
    as (l1 & l2 & w' & Hs & Hl1 & Hst & Hd & Hsl & Hth & _).
  - vm_compute. apply list_elem_of_here.
  - exists w'. split; [exact Hst|].
    destruct l1 as [|d l1].
    + injection Hs as <-. split; [exact Hd|]. split; [exact Hsl|exact Hth].
    + exfalso. injection Hs as <- _. apply Hl1, list_elem_of_here.
Defined.

(** The turn of a listener whose device fails. *)
Lemma listen_recv_fails th dev w p rest :
  thread_objs w !! th = Some (mkThread dev Alive) →
  stop_listening (bus w) = false →
  hw w !! dev_id dev = Some ((RecvFails, p) :: rest) →
  listen th w =
    match list_remove dev (devs (bus w)) with
    | Ok ds =>
        finish th dev Returned
          (upd_bus (set_devs ds) (upd_hw <[dev_id dev := rest]> w))
    | Raise e =>
        finish th dev (Died e) (upd_hw <[dev_id dev := rest]> w)
    end.
Proof.
  intros Hth Hstop Hhw. unfold listen. rewrite Hth, Hstop, Hhw.
  unfold listen_body. st_unfold. cbn [fst snd listen_handler].
  rewrite stop_at. cbn [upd_hw bus].
  by destruct (list_remove dev (devs (bus w))).
Qed.



(** The other listeners do not move when one takes its turn. *)
Lemma listen_others th th' w :
  th' ≠ th → thread_objs (listen th w) !! th' = thread_objs w !! th'.
Proof.
  intros Hne. unfold listen.
  destruct (thread_objs w !! th) as [[dev []]|] eqn:Hth; try done.
  destruct (stop_listening (bus w));
    [by cbn [finish upd_threads thread_objs]; rewrite lookup_insert_ne|].
  destruct (hw w !! dev_id dev) as [[|[r p] rest]|]; try done.
  unfold listen_body. st_unfold. destruct r, p; simpl;
    rewrite ?stop_at; simpl;
    try destruct (list_remove dev (devs (bus w))); simpl;
    rewrite ?lookup_insert_ne; done.
Qed.

(** C1: on a bus with the two devices can0 and can1 attached, [stop_all]
    returns with the stop signal set and both listeners joined in the order
    they were spawned, and with can1 still in [devs]. *)
Theorem stop_all_leaves_second_device :
  devs (bus Examples.two_devices) = [Examples.can0; Examples.can1] ∧
  threads (bus Examples.two_devices) = [0; 1] ∧
  ∃ w', stop_all Examples.two_devices = Some (w', Ok tt) ∧
        devs (bus w') = [Examples.can1] ∧
        stop_listening (bus w') = true ∧
        joined w' = [0; 1] ∧
        thread_objs w' !! 0 = Some (mkThread Examples.can0 Returned) ∧
        thread_objs w' !! 1 = Some (mkThread Examples.can1 Returned).
Proof.
  split; [reflexivity|]. split; [reflexivity|].
  eexists. split; [vm_compute; reflexivity|].
  repeat split; reflexivity.
Qed.

(** ** [stop_all] on any bus *)

Lemma list_remove_at `{EqDecision A} (l : list A) i x :
  NoDup l → l !! i = Some x → list_remove x l = Ok (delete i l).
Proof.
  revert i. induction l as [|y l IH]; intros i Hnd Hi; [done|].
  apply NoDup_cons in Hnd as [Hy Hnd]. simpl.
  destruct i as [|i]; simpl in Hi.
  - injection Hi as ->. by rewrite decide_True.
  - rewrite decide_False.
    + by rewrite (IH i Hnd Hi).
    + intros ->. apply Hy. by eapply list_elem_of_lookup_2.
Qed.

Lemma NoDup_delete {A} (l : list A) i : NoDup l → NoDup (delete i l).
Proof. intros Hnd. eapply sublist_NoDup; [done|apply sublist_delete]. Qed.

Lemma every_second_step {A} (l1 l2 : list A) x :
  take (S (length l1)) (l1 ++ l2)
    ++ every_second (drop (S (length l1)) (l1 ++ l2))
  = l1 ++ every_second (x :: l2).
Proof.
  rewrite take_app_ge, drop_app_ge by lia.
  replace (S (length l1) - length l1) with 1 by lia.
  rewrite <- (assoc_L (++)). f_equal. by destruct l2.
Qed.

Lemma upd_bus_same_devs w : upd_bus (set_devs (devs (bus w))) w = w.
Proof. by destruct w as [[] ? ? ? ? ? ?]. Qed.

Lemma upd_bus_set_devs_twice ds ds' w :
  upd_bus (set_devs ds') (upd_bus (set_devs ds) w) = upd_bus (set_devs ds') w.
Proof. done. Qed.

(** The loop of [stop_all] ends within the fuel [stop_all] gives it, never
    raises, and leaves the handles at the odd positions. *)
Lemma for_devs_stop fuel i w :
  NoDup (devs (bus w)) → length (devs (bus w)) - i < fuel →
  for_devs fuel i stop w =
    Some (upd_bus (set_devs (take i (devs (bus w))
                             ++ every_second (drop i (devs (bus w))))) w,
          Ok tt).
Proof.
  revert i w. induction fuel as [|fuel IH]; intros i w Hnd Hfuel; [lia|].
  cbn [for_devs]. destruct (devs (bus w) !! i) as [dev|] eqn:Hi.
  - rewrite stop_at, (list_remove_at _ _ _ Hnd Hi).
    pose proof (lookup_lt_Some _ _ _ Hi) as Hlt.
    rewrite IH; cbn [upd_bus set_devs bus devs].
    + rewrite upd_bus_set_devs_twice. do 4 f_equal.
      rewrite delete_take_drop, (drop_S _ _ _ Hi).
      assert (Hlen : length (take i (devs (bus w))) = i)
        by (rewrite length_take; lia).
      set (l1 := take i (devs (bus w))) in *.
      set (l2 := drop (S i) (devs (bus w))).
      rewrite <- Hlen. apply every_second_step.
    + by apply NoDup_delete.
    + rewrite length_delete by done. lia.
  - apply lookup_ge_None in Hi.
    rewrite take_ge, drop_ge by done. simpl.
    by rewrite (right_id_L [] (++)), upd_bus_same_devs.
Qed.

(** With the stop signal set, the turn of a listener that is alive ends
    it and leaves the bus alone. *)
Lemma listen_stopped th dev w :
  thread_objs w !! th = Some (mkThread dev Alive) →
  stop_listening (bus w) = true →
  listen th w = finish th dev Returned w.
Proof. intros Hth Hstop. unfold listen. by rewrite Hth, Hstop. Qed.

Lemma join_stopped th w :
  is_Some (thread_objs w !! th) → stop_listening (bus w) = true →
  ∃ w', join (join_fuel th w) th w = Some w' ∧
        bus w' = bus w ∧ joined w' = joined w ++ [th] ∧
        stdout w' = stdout w ∧
        (∃ dev s, thread_objs w' !! th = Some (mkThread dev s) ∧ s ≠ Alive) ∧
        (∀ th', th' ≠ th → thread_objs w' !! th' = thread_objs w !! th') ∧
        (∀ th' dev s, thread_objs w !! th' = Some (mkThread dev s) →
                      s ≠ Alive →
                      thread_objs w' !! th' = Some (mkThread dev s)).
Proof.
  intros [[dev s] Hth] Hstop. unfold join_fuel. rewrite Hth.
  destruct (decide (s = Alive)) as [->|Hs].
  - cbn [join]. rewrite Hth, (listen_stopped _ _ _ Hth Hstop).
    set (w1 := finish th dev Returned w).
    assert (Hth1 : thread_objs w1 !! th = Some (mkThread dev Returned))
      by apply lookup_insert_eq.
    assert (Hoth : ∀ th', th' ≠ th →
              thread_objs (log_join th w1) !! th' = thread_objs w !! th').
    { intros th' Hne. cbn [log_join thread_objs w1 finish upd_threads].
      by rewrite lookup_insert_ne. }
    exists (log_join th w1). split.
    { destruct (length _); cbn [join]; by rewrite Hth1. }
    split_and!; try done.
    + by exists dev, Returned.
    + intros th' dev' s' Hl Hs'. destruct (decide (th' = th)) as [->|Hne].
      * rewrite Hth in Hl. by injection Hl as <- <-.
      * by rewrite Hoth.
  - exists (log_join th w). split.
    { cbn [join]. rewrite Hth. by destruct s. }
    split_and!; try done. by exists dev, s.
Qed.

Lemma join_each_stopped ths w :
  (∀ th, th ∈ ths → is_Some (thread_objs w !! th)) →
  stop_listening (bus w) = true →
  ∃ w', join_each ths w = Some w' ∧
        bus w' = bus w ∧ joined w' = joined w ++ ths ∧
        stdout w' = stdout w ∧
        (∀ th, th ∈ ths →
               ∃ dev s, thread_objs w' !! th = Some (mkThread dev s) ∧
                        s ≠ Alive) ∧
        (∀ th, is_Some (thread_objs w !! th) →
               is_Some (thread_objs w' !! th)) ∧
        (∀ th dev s, thread_objs w !! th = Some (mkThread dev s) →
                     s ≠ Alive →
                     thread_objs w' !! th = Some (mkThread dev s)).
Proof.
  revert w. induction ths as [|th ths IH]; intros w Hall Hstop.
  { exists w. split_and!; try done.
    - by rewrite (right_id_L [] (++)).
    - intros th Hin. by apply elem_of_nil in Hin. }
  destruct (join_stopped th w)
    as (w1 & Hj & Hb1 & Hj1 & Ho1 & Hth1 & Hoth1 & Hfin1);
    [apply Hall, list_elem_of_here|done|].
  assert (Hsome1 : ∀ th', is_Some (thread_objs w !! th') →
                          is_Some (thread_objs w1 !! th')).
  { intros th' Hs. destruct (decide (th' = th)) as [->|Hne].
    - destruct Hth1 as (dev & s & -> & _). by eexists.
    - by rewrite (Hoth1 th' Hne). }
  destruct (IH w1) as (w2 & Hj2 & Hb2 & Hjd2 & Ho2 & Hth2 & Hsome2 & Hfin2).
  { intros th' Hin. apply Hsome1, Hall. by apply list_elem_of_further. }
  { by rewrite Hb1. }
  exists w2. split_and!.
  - cbn [join_each]. rewrite Hj. exact Hj2.
  - by rewrite Hb2.
  - by rewrite Hjd2, Hj1, <- (assoc_L (++)).
  - by rewrite Ho2.
  - intros th' Hin. apply elem_of_cons in Hin as [->|Hin]; [|by apply Hth2].
    destruct Hth1 as (dev & s & Hl & Hs). exists dev, s.
    split; [by apply Hfin2|done].
  - intros th' Hs. by apply Hsome2, Hsome1.
  - intros th' dev s Hl Hs. apply Hfin2; [|done]. by apply Hfin1.
Qed.

(** What [stop_all] does on a bus whose handles are pairwise distinct and
    whose threads all exist: it returns; the stop signal is set; every
    thread has been joined, in the order of [threads], and none is alive;
    and [devs] keeps the handles that stood at the odd positions. *)
Lemma stop_all_at w :
  NoDup (devs (bus w)) →
  (∀ th, th ∈ threads (bus w) → is_Some (thread_objs w !! th)) →
  ∃ w', stop_all w = Some (w', Ok tt) ∧
        devs (bus w') = every_second (devs (bus w)) ∧
        stop_listening (bus w') = true ∧
        threads (bus w') = threads (bus w) ∧
        frames (bus w') = frames (bus w) ∧
        joined w' = joined w ++ threads (bus w) ∧
        ∀ th, th ∈ threads (bus w) →
              ∃ dev s, thread_objs w' !! th = Some (mkThread dev s) ∧
                       s ≠ Alive.
Proof.
  intros Hnd Hths. unfold stop_all.
  rewrite (for_devs_stop _ 0 w Hnd) by lia. cbn [mbind option_bind].
  rewrite take_0, drop_0. cbn [app].
  set (w1 := upd_bus set_stop_listening
               (upd_bus (set_devs (every_second (devs (bus w)))) w)).
  set (line := "waiting for " +:+ pretty (length (threads (bus w1)))
               +:+ " bus-threads to close.").
  cbv zeta. fold w1. fold line.
  case_bool_decide as Hn.
  - destruct (join_each_stopped (threads (bus w)) (print line w1))
      as (w2 & Hj & Hb & Hjd & _ & Hfin & _); [done|done|].
    change (threads (bus (print line w1))) with (threads (bus w)).
    rewrite Hj. cbn [mbind option_bind].
    eexists. split; [done|].
    cbn [print bus]. rewrite Hb. by split_and!.
  - assert (threads (bus w) = []) as Hnil.
    { destruct (threads (bus w)) eqn:Ht; [done|].
      exfalso. apply Hn. unfold w1. cbn. rewrite Ht. simpl. lia. }
    eexists. split; [done|]. cbn [print bus joined]. rewrite Hnil.
    split_and!; try done.
    + by rewrite (right_id_L [] (++)).
    + intros th Hin. by apply elem_of_nil in Hin.
Qed.

(** With two or more distinct handles attached, [stop_all] leaves one
    behind. *)
Lemma stop_all_leaves_devices w d1 d2 ds :
  devs (bus w) = d1 :: d2 :: ds → NoDup (devs (bus w)) →
  (∀ th, th ∈ threads (bus w) → is_Some (thread_objs w !! th)) →
  ∃ w', stop_all w = Some (w', Ok tt) ∧ d2 ∈ devs (bus w').
Proof.
  intros Hds Hnd Hths.
  destruct (stop_all_at w Hnd Hths) as (w' & Hs & Hd & _).
  exists w'. split; [done|]. rewrite Hd, Hds. apply list_elem_of_here.
Qed.

(** With at most one handle attached, it leaves none. *)
Lemma stop_all_clears_short_lists w :
  length (devs (bus w)) ≤ 1 →
  (∀ th, th ∈ threads (bus w) → is_Some (thread_objs w !! th)) →
  ∃ w', stop_all w = Some (w', Ok tt) ∧ devs (bus w') = [].
Proof.
  intros Hlen Hths.
  assert (NoDup (devs (bus w))) as Hnd.
  { destruct (devs (bus w)) as [|d [|d' ds]]; simpl in Hlen; [| |lia].
    - constructor.
    - apply NoDup_singleton. }
  destruct (stop_all_at w Hnd Hths) as (w' & Hs & Hd & _).
  exists w'. split; [done|]. rewrite Hd.
  destruct (devs (bus w)) as [|d [|d' ds]]; simpl in Hlen; [done|done|lia].
Qed.

(** Without spawned listeners [stop_all] joins nothing: it sets the signal
    and prints its two lines. *)
Lemma stop_all_no_listeners w :
  devs (bus w) = [] → threads (bus w) = [] →
  stop_all w =
    Some (print "no child bus threads were spawned!"
            (print "waiting for 0 bus-threads to close."
               (upd_bus set_stop_listening w)), Ok tt).
Proof.
  intros Hd Ht. unfold stop_all. rewrite Hd. cbn [length for_devs].
  rewrite Hd. cbn [lookup list_lookup mbind option_bind].
  cbv zeta. cbn [upd_bus bus set_stop_listening threads]. rewrite Ht. done.
Qed.

(** ** The handles of a bus stay distinct *)


Lemma start_at name w :
  name ∈ ifaces w →
  start name w =
    (mkWorld (mk (devs (bus w) ++ [mkDev (next_id w) name]) (frames (bus w))
                 (stop_listening (bus w)) (block (bus w))
                 (threads (bus w) ++ [next_id w]))
             (<[next_id w := mkThread (mkDev (next_id w) name) Alive]>
                (thread_objs w))
             (stdout w) (joined w) (ifaces w) (hw w) (S (next_id w)),
     Ok tt).
Proof.
  intros Hin. unfold start. st_unfold. cbn [fst snd].
  by rewrite bool_decide_eq_true_2.
Qed.

Lemma start_missing name w : name ∉ ifaces w → start name w = (w, Raise OSError).
Proof.
  intros Hin. unfold start. st_unfold. cbn [fst snd].
  by rewrite bool_decide_eq_false_2.
Qed.

Lemma bus_ok_start name w w' r :
  bus_ok w → start name w = (w', r) → bus_ok w'.
Proof.
  intros (Hnd & Hlt & Hths) Hstart.
  destruct (decide (name ∈ ifaces w)) as [Hin|Hout]; cycle 1.
  { rewrite (start_missing _ _ Hout) in Hstart. by injection Hstart as <- _. }
  rewrite (start_at _ _ Hin) in Hstart. injection Hstart as <- _.
  split_and!; cbn [bus devs threads next_id thread_objs].
  - apply NoDup_app. split_and!; [done| |apply NoDup_singleton].
    intros d Hd Hd'. apply list_elem_of_singleton in Hd' as ->.
    rewrite Forall_forall in Hlt. specialize (Hlt _ Hd). simpl in Hlt. lia.
  - apply Forall_app. split.
    + eapply Forall_impl; [exact Hlt|]. intros d Hd. simpl in *. lia.
    + apply Forall_singleton. simpl. lia.
  - intros th Hth. apply elem_of_app in Hth as [Hth|Hth].
    + destruct (decide (th = next_id w)) as [->|Hne].
      * rewrite lookup_insert_eq. by eexists.
      * rewrite lookup_insert_ne by done. by apply Hths.
    + apply list_elem_of_singleton in Hth as ->.
      rewrite lookup_insert_eq. by eexists.
Qed.

Lemma bus_ok_set_devs w ds :
  bus_ok w → ds `sublist_of` devs (bus w) → bus_ok (upd_bus (set_devs ds) w).
Proof.
  intros (Hnd & Hlt & Hths) Hsub. split_and!; cbn.
  - by eapply sublist_NoDup.
  - rewrite Forall_forall in Hlt. apply Forall_forall. intros d Hd.
    apply Hlt. by eapply elem_of_sublist.
  - done.
Qed.

Lemma bus_ok_stop dev w w' r :
  bus_ok w → stop dev w = (w', r) → bus_ok w'.
Proof.
  intros Hok. rewrite stop_at.
  destruct (decide (dev ∈ devs (bus w))) as [Hin|Hout].
  - destruct (list_remove_elem_of dev _ Hin) as (l1 & l2 & Hs & _ & ->).
    intros [= <- _]. apply bus_ok_set_devs; [done|]. rewrite Hs.
    apply sublist_app; [done|]. by apply sublist_cons.
  - rewrite (list_remove_not_elem_of _ _ Hout). by intros [= <- _].
Qed.

Lemma bus_ok_shrink w w' :
  devs (bus w') `sublist_of` devs (bus w) →
  next_id w' = next_id w → threads (bus w') = threads (bus w) →
  (∀ th, is_Some (thread_objs w !! th) → is_Some (thread_objs w' !! th)) →
  bus_ok w → bus_ok w'.
Proof.
  intros Hsub Hid Hths Hobjs (Hnd & Hlt & Hall). split_and!.
  - by eapply sublist_NoDup.
  - rewrite Forall_forall in Hlt. apply Forall_forall. intros d Hd.
    rewrite Hid. apply Hlt. by eapply elem_of_sublist.
  - intros th Hth. rewrite Hths in Hth. by apply Hobjs, Hall.
Qed.

Lemma is_Some_insert_thread (objs : gmap tid Thread) th th' x :
  is_Some (objs !! th') → is_Some (<[th := x]> objs !! th').
Proof.
  intros Hs. destruct (decide (th = th')) as [->|Hne].
  - rewrite lookup_insert_eq. by eexists.
  - by rewrite lookup_insert_ne.
Qed.

(** A turn of a listener keeps the shape of the bus. *)
Lemma bus_ok_listen th w : bus_ok w → bus_ok (listen th w).
Proof.
  intros Hok. unfold listen.
  destruct (thread_objs w !! th) as [[dev []]|] eqn:Hth; try done.
  destruct (stop_listening (bus w)).
  { eapply bus_ok_shrink; [| | | |exact Hok]; try done.
    intros th'. apply is_Some_insert_thread. }
  destruct (hw w !! dev_id dev) as [[|[r p] rest]|]; try done.
  unfold listen_body. st_unfold. destruct r as [f|], p; cbn [fst snd].
  - eapply bus_ok_shrink; [| | | |exact Hok]; done.
  - eapply bus_ok_shrink; [| | | |exact Hok]; try done.
    intros th'. apply is_Some_insert_thread.
  - cbn [listen_handler]. rewrite stop_at. cbn [upd_hw bus].
    destruct (decide (dev ∈ devs (bus w))) as [Hin|Hout].
    + destruct (list_remove_elem_of dev _ Hin) as (l1 & l2 & Hs & _ & ->).
      eapply bus_ok_shrink; [| | | |exact Hok]; try done.
      * cbn. rewrite Hs. apply sublist_app; [done|]. by apply sublist_cons.
      * intros th'. apply is_Some_insert_thread.
    + rewrite (list_remove_not_elem_of _ _ Hout).
      eapply bus_ok_shrink; [| | | |exact Hok]; try done.
      intros th'. apply is_Some_insert_thread.
  - cbn [listen_handler]. rewrite stop_at. cbn [upd_hw bus].
    destruct (decide (dev ∈ devs (bus w))) as [Hin|Hout].
    + destruct (list_remove_elem_of dev _ Hin) as (l1 & l2 & Hs & _ & ->).
      eapply bus_ok_shrink; [| | | |exact Hok]; try done.
      * cbn. rewrite Hs. apply sublist_app; [done|]. by apply sublist_cons.
      * intros th'. apply is_Some_insert_thread.
    + rewrite (list_remove_not_elem_of _ _ Hout).
      eapply bus_ok_shrink; [| | | |exact Hok]; try done.
      intros th'. apply is_Some_insert_thread.
Qed.

(** A turn on which the device delivers and the queue accepts: the entry
    goes to the end of the queue and the listener stays alive. *)
Lemma listen_delivers th dev w f rest :
  thread_objs w !! th = Some (mkThread dev Alive) →
  stop_listening (bus w) = false →
  hw w !! dev_id dev = Some ((Received f, Stored) :: rest) →
  listen th w =
    upd_bus (set_frames (frames (bus w) ++ [(f, ndev dev)]))
            (upd_hw <[dev_id dev := rest]> w).
Proof.
  intros Hth Hstop Hhw. unfold listen. by rewrite Hth, Hstop, Hhw.
Qed.

(** * More of the message table *)

Import MessageTable.

Lemma contains_at h self o k :
  h !! self = Some o →
  __contains__ self k h = (h, Ok (bool_decide (is_Some (table o !! k)))).
Proof.
  intros Hl. unfold __contains__. rewrite (invoke_at _ _ _ _ Hl).
  unfold gets. cbn [fst snd]. by rewrite insert_id.
Qed.

Lemma Forall2_entries_at (tb : gmap Z Message) ks ms :
  Forall2 (λ k m, tb !! k = Some m) ks ms → ms = entries_at tb ks.
Proof.
  induction 1 as [|k m ks ms Hk _ IH]; [done|].
  unfold entries_at. cbn [omap list_omap]. rewrite Hk. by f_equal.
Qed.

(** The window of a selection with [start ≥ 0], as a function of the
    table. *)
Lemma window_at h self o (start stop : Z) :
  h !! self = Some o → (0 ≤ start)%Z →
  let n := Z.of_nat (size (table o)) in
  let e := Z.min stop n in
  let s := Z.min start e in
  ∃ o',
    window self start stop h =
      Some (<[self := o']> h, entries_at (table o) (slice s e (sorted_keys o)),
            StopIteration) ∧
    table o' = table o ∧ parser o' = parser o.
Proof.
  intros Hl Hstart n e s.
  destruct (window_slice h self o start stop Hl Hstart)
    as (h1 & h2 & ms & Hcall & Hfor & Hall & _).
  fold n e s in Hall. apply Forall2_entries_at in Hall. subst ms.
  unfold window. rewrite Hcall.
  destruct (call_frame _ _ _ _ _ _ _ Hl Hcall) as (o1 & -> & Ht1 & Hp1).
  unfold for_in in Hfor. rewrite (iter_at _ _ o1) in Hfor
    by apply lookup_insert_eq.
  destruct (consume_frame _ _ _ _ _ _ _ (lookup_insert_eq _ _ _) Hfor)
    as (o2 & Hh2 & Hp2 & Ht2 & _).
  exists o2. split_and!.
  - unfold for_in. rewrite (iter_at _ _ o1) by apply lookup_insert_eq.
    rewrite Hfor, Hh2. by rewrite !insert_insert_eq.
  - by rewrite Ht2.
  - by rewrite Hp2.
Qed.

(** After an insert that the parser lets through, [arb_id in table] is
    true, the answer for every other key is as before, and the iteration
    over the full window hands out the message as it was stored. *)
Theorem add_then_contains h self o m :
  h !! self = Some o → parses (parser o) m →
  ∃ h',
    __add__ self m h = (h', Ok self) ∧
    __contains__ self (arb_id m) h' = (h', Ok true) ∧
    (∀ k, k ≠ arb_id m →
          (__contains__ self k h').2 = (__contains__ self k h).2) ∧
    ∃ h1 h2 ms,
      (n ← __len__ self; __call__ self (PyInt 0) n) h' = (h1, Ok self) ∧
      for_in self h1 = Some (h2, ms, StopIteration) ∧
      stored (parser o) m ∈ ms.
Proof.
  intros Hl Hp. eexists. split; [by apply add_parses|].
  set (o' := set_table <[arb_id m := stored (parser o) m]> o).
  assert (Hl' : <[self := o']> h !! self = Some o') by apply lookup_insert_eq.
  split_and!.
  - rewrite (contains_at _ _ _ _ Hl'). cbn [o' set_table table].
    rewrite lookup_insert_eq. by rewrite bool_decide_eq_true_2.
  - intros k Hk. rewrite (contains_at _ _ _ _ Hl'), (contains_at _ _ _ _ Hl).
    cbn [o' set_table table snd]. by rewrite lookup_insert_ne.
  - destruct (full_window _ _ _ Hl') as (h1 & h2 & ms & Hc & Hf & Hall).
    exists h1, h2, ms. split_and!; [done|done|].
    apply (Hall (arb_id m)). cbn [o' set_table table].
    apply lookup_insert_eq.
Qed.

Lemma add_then_contains_witness :
  ∃ h', __add__ 1%positive Examples.m1 (Examples.empty_with None)
          = (h', Ok 1%positive) ∧
        __contains__ 1%positive 1 h' = (h', Ok true).
Proof.
  destruct (add_then_contains (Examples.empty_with None) 1%positive
              (mk None ∅ None None None) Examples.m1 eq_refl I)
    as (h' & Hadd & Hin & _).
  exists h'. split; [exact Hadd|exact Hin].
Defined.

(** A table that was just built contains no key. *)
Lemma new_table_contains_nothing p (h : heap) k :
  (self ← __init__ p; __contains__ self k) h
  = (<[fresh (dom h) := mk p ∅ None None None]> h, Ok false).
Proof.
  unfold mbind, ST_bind, __init__. cbv zeta.
  by rewrite (contains_at _ _ (mk p ∅ None None None))
    by apply lookup_insert_eq.
Qed.



(** An iteration over a table on which no window was selected raises
    [AttributeError] before it hands out anything. *)
Lemma for_in_without_selection h self o :
  h !! self = Some o → __start o = None →
  for_in self h =
    Some (<[self := set_keys (sorted_keys o) o]> h, [], AttributeError).
Proof.
  intros Hl Hs. unfold for_in. rewrite (iter_at _ _ _ Hl).
  unfold enough_fuel. rewrite lookup_insert_eq. cbn [consume].
  unfold __next__. rewrite (invoke_at _ _ _ (set_keys (sorted_keys o) o))
    by apply lookup_insert_eq.
  destruct o as [p tb ks st sp]. cbn in Hs. subst st.
  st_unfold. cbn. by rewrite insert_insert_eq.
Qed.

(** The result of [filter] carries no window, whatever the state of the
    table it was taken from: iterating over it without a call of
    [__call__] first raises [AttributeError] and hands out nothing. *)
Theorem filter_result_has_no_selection h self o types :
  h !! self = Some o →
  ∃ h' copy h'',
    filter self types h = (h', Ok copy) ∧
    for_in copy h' = Some (h'', [], AttributeError).
Proof.
  intros Hl. eexists _, _, _. split; [by apply filter_at|].
  by apply for_in_without_selection; [apply lookup_insert_eq|].
Qed.

Lemma filter_result_has_no_selection_witness :
  ∃ h' copy h'',
    filter 1%positive [SDO] Examples.three = (h', Ok copy) ∧
    for_in copy h' = Some (h'', [], AttributeError).
Proof.
  apply (filter_result_has_no_selection Examples.three 1%positive
           (mk None (<[1%Z := Examples.m1]>
                       (<[2%Z := Examples.m2]> {[ 3%Z := Examples.m3 ]}))
               None None None) [SDO] eq_refl).
Defined.

(** The dictionary of a filtered copy. *)
Lemma filter_table types (tb : gmap Z Message) :
  foldl (keep types) ∅ (map_to_list tb)
  = base.filter (λ kv, selected types kv.2 = true) tb.
Proof.
  apply map_eq. intros k. apply option_eq. intros v.
  by rewrite filtered_lookup, map_lookup_filter_Some.
Qed.

(** Two filters in a row keep the entries that pass both tests, so their
    order does not matter for the entries of the result, and filtering
    twice by the same types keeps what filtering once keeps. *)
Theorem filter_twice_intersects h self o T1 T2 :
  h !! self = Some o →
  ∃ h12 f12 o12 h21 f21 o21,
    (f ← filter self T1; filter f T2) h = (h12, Ok f12) ∧
    h12 !! f12 = Some o12 ∧
    (f ← filter self T2; filter f T1) h = (h21, Ok f21) ∧
    h21 !! f21 = Some o21 ∧
    (∀ k v, table o12 !! k = Some v ↔
            table o !! k = Some v ∧
            selected T1 v = true ∧ selected T2 v = true) ∧
    table o21 = table o12 ∧ parser o21 = parser o12 ∧
    (T1 = T2 → ∀ h1 f1 o1, filter self T1 h = (h1, Ok f1) →
                           h1 !! f1 = Some o1 → table o12 = table o1).
Proof.
  intros Hl.
  assert (Hchain : ∀ Ta Tb,
    ∃ hab fab oab,
      (f ← filter self Ta; filter f Tb) h = (hab, Ok fab) ∧
      hab !! fab = Some oab ∧ parser oab = parser o ∧
      table oab
      = base.filter (λ kv, selected Tb kv.2 = true)
          (base.filter (λ kv, selected Ta kv.2 = true) (table o))).
  { intros Ta Tb. unfold mbind, ST_bind. rewrite (filter_at _ _ _ Ta Hl).
    erewrite filter_at by apply lookup_insert_eq.
    eexists _, _, _. split; [done|]. split; [apply lookup_insert_eq|].
    split; [done|]. cbn [table]. by rewrite !filter_table. }
  destruct (Hchain T1 T2) as (h12 & f12 & o12 & H12 & Hl12 & Hp12 & Ht12).
  destruct (Hchain T2 T1) as (h21 & f21 & o21 & H21 & Hl21 & Hp21 & Ht21).
  exists h12, f12, o12, h21, f21, o21. split_and!; try done.
  - intros k v. rewrite Ht12, !map_lookup_filter_Some. cbn [snd]. tauto.
  - rewrite Ht12, Ht21. apply map_eq. intros k. apply option_eq. intros v.
    rewrite !map_lookup_filter_Some. cbn [snd]. tauto.
  - by rewrite Hp12, Hp21.
  - intros <- h1 f1 o1 Hf Hl1. rewrite (filter_at _ _ _ T1 Hl) in Hf.
    injection Hf as <- <-. rewrite lookup_insert_eq in Hl1.
    injection Hl1 as <-. cbn [table]. rewrite Ht12, filter_table.
    apply map_eq. intros k. apply option_eq. intros v.
    rewrite !map_lookup_filter_Some. cbn [snd]. tauto.
Qed.

Lemma filter_twice_intersects_witness :
  ∃ h12 f12 o12,
    (f ← filter 1%positive [SDO]; filter f [PDO]) Examples.three
      = (h12, Ok f12) ∧
    h12 !! f12 = Some o12 ∧
    (table o12 !! 2%Z = Some Examples.m2 ↔
     (Examples.three !! 1%positive ≫= λ o, table o !! 2%Z) = Some Examples.m2
     ∧ selected [SDO] Examples.m2 = true ∧ selected [PDO] Examples.m2 = true).
Proof.
  destruct (filter_twice_intersects Examples.three 1%positive
              (mk None (<[1%Z := Examples.m1]>
                          (<[2%Z := Examples.m2]> {[ 3%Z := Examples.m3 ]}))
                  None None None) [SDO] [PDO] eq_refl)
    as (h12 & f12 & o12 & _ & _ & _ & H12 & Hl12 & _ & _ & Hent & _).
  exists h12, f12, o12. split; [exact H12|]. split; [exact Hl12|].
  exact (Hent 2%Z Examples.m2).
Defined.



Lemma slice_app {A} (l : list A) (s m e : Z) :
  (0 ≤ s ≤ m)%Z → (m ≤ e)%Z → slice s m l ++ slice m e l = slice s e l.
Proof.
  intros Hsm Hme. unfold slice.
  replace (Z.to_nat m) with (Z.to_nat s + Z.to_nat (m - s)) by lia.
  rewrite <- drop_drop, take_take_drop. f_equal. lia.
Qed.

(** Windows tile the table: for [0 ≤ a ≤ b ≤ c], what the window [(a, b)]
    hands out, followed by what the window [(b, c)] hands out, is what the
    window [(a, c)] hands out; each of the three iterations ends by
    [StopIteration]. *)
Theorem windows_tile h self o (a b c : Z) :
  h !! self = Some o → (0 ≤ a ≤ b)%Z → (b ≤ c)%Z →
  ∃ h1 ms1 h2 ms2 h3,
    window self a b h = Some (h1, ms1, StopIteration) ∧
    window self b c h1 = Some (h2, ms2, StopIteration) ∧
    window self a c h2 = Some (h3, ms1 ++ ms2, StopIteration).
Proof.
  intros Hl Hab Hbc.
  destruct (window_at h self o a b Hl) as (o1 & Hw1 & Ht1 & _); [lia|].
  destruct (window_at (<[self := o1]> h) self o1 b c (lookup_insert_eq _ _ _))
    as (o2 & Hw2 & Ht2 & _); [lia|].
  destruct (window_at (<[self := o2]> (<[self := o1]> h)) self o2 a c
              (lookup_insert_eq _ _ _))
    as (o3 & Hw3 & Ht3 & _); [lia|].
  cbv zeta in *. eexists _, _, _, _, _.
  split; [exact Hw1|]. split; [exact Hw2|]. rewrite Hw3. do 2 f_equal.
  f_equal. unfold sorted_keys. rewrite Ht2, Ht1.
  fold (sorted_keys o). unfold entries_at. rewrite <- omap_app. f_equal.
  set (n := Z.of_nat (size (table o))).
  replace (Z.min b (Z.min c n)) with (Z.min b n) by lia.
  replace (Z.min a (Z.min c n)) with (Z.min a (Z.min b n)) by lia.
  symmetry. apply slice_app; lia.
Qed.

Lemma windows_tile_witness :
  ∃ h1 ms1 h2 ms2 h3,
    window 1%positive 0 1 Examples.three = Some (h1, ms1, StopIteration) ∧
    window 1%positive 1 3 h1 = Some (h2, ms2, StopIteration) ∧
    window 1%positive 0 3 h2 = Some (h3, ms1 ++ ms2, StopIteration).
Proof.
  apply (windows_tile Examples.three 1%positive
           (mk None (<[1%Z := Examples.m1]>
                       (<[2%Z := Examples.m2]> {[ 3%Z := Examples.m3 ]}))
               None None None) 0 1 3); [reflexivity|lia|lia].
Defined.

(** * The pane: rows and scrolling *)

Lemma StronglySorted_slice {A} (R : relation A) (l : list A) (s e : Z) :
  StronglySorted R l → StronglySorted R (slice s e l).
Proof.
  intros Hl. unfold slice.
  rewrite <- (take_drop (Z.to_nat s) l) in Hl.
  apply StronglySorted_app_1_r in Hl.
  rewrite <- (take_drop (Z.to_nat (e - s)) (drop (Z.to_nat s) l)) in Hl.
  by apply StronglySorted_app_1_l in Hl.
Qed.

Lemma entries_at_present (tb : gmap Z Message) ks :
  (∀ k, k ∈ ks → is_Some (tb !! k)) →
  Forall2 (λ k m, tb !! k = Some m) ks (entries_at tb ks).
Proof.
  induction ks as [|k ks IH]; intros Hks; [constructor|].
  unfold entries_at. cbn [omap list_omap].
  destruct (Hks k) as [m Hm]; [apply list_elem_of_here|]. rewrite Hm.
  constructor; [done|]. apply IH. intros k' Hk'. apply Hks.
  by apply list_elem_of_further.
Qed.

(** The rows of a pane, as a function of its table: the entries of the
    selected types under the keys of the window [(top, top + d_height - 3)]
    of the filtered copy, which sits at a new reference. *)
Lemma rows_at h table o types (top d_height : Z) :
  h !! table = Some o → (0 ≤ top)%Z →
  let tb := base.filter (λ kv, selected types kv.2 = true)
                        (MessageTable.table o) in
  let ks := sorted_keys (mk (parser o) tb None None None) in
  let n := Z.of_nat (size tb) in
  let e := Z.min (top + d_height - 3) n in
  let s := Z.min top e in
  ∃ o',
    MessagePane.rows table types top d_height h =
      Some (<[fresh (dom h) := o']> h, entries_at tb (slice s e ks),
            StopIteration).
Proof.
  intros Hl Htop tb ks n e s. unfold MessagePane.rows,
    MessagePane.__filter_messages.
  unfold mbind at 1, ST_bind at 1. rewrite (filter_at _ _ _ types Hl).
  rewrite filter_table. fold tb.
  set (new := fresh (dom h)).
  set (copy := mk (parser o) tb None None None).
  destruct (window_at (<[new := copy]> h) new copy top (top + d_height - 3)
              (lookup_insert_eq _ _ _) Htop) as (o' & Hw & _).
  unfold window in Hw. exists o'.
  destruct (__call__ new (PyInt top) (PyInt (top + d_height - 3))
              (<[new := copy]> h)) as [h1 [it|ex]] eqn:Hc.
  - rewrite insert_insert_eq in Hw. exact Hw.
  - pose proof (call_at (<[new := copy]> h) new copy top
                  (top + d_height - 3) (lookup_insert_eq _ _ _)) as Hca.
    cbv zeta in Hca. rewrite Hc in Hca. congruence.
Qed.

(** A pane never goes through more than [d_height - 3] rows; its rows are
    entries of its table that pass the test of its types, under keys in
    ascending order; and the objects that were in the store, the shared
    table among them, are as they were. *)
Theorem rows_fit_the_pane h table o types (top d_height : Z) :
  h !! table = Some o → (0 ≤ top)%Z →
  ∃ h' ks ms,
    MessagePane.rows table types top d_height h
      = Some (h', ms, StopIteration) ∧
    (Z.of_nat (length ms) ≤ Z.max 0 (d_height - 3))%Z ∧
    Forall2 (λ k m, MessageTable.table o !! k = Some m ∧
                    (type m ∈ types ∨ supertype m ∈ types)) ks ms ∧
    StronglySorted Z.lt ks ∧
    ∀ l x, h !! l = Some x → h' !! l = Some x.
Proof.
  intros Hl Htop.
  destruct (rows_at h table o types top d_height Hl Htop) as (o' & Hrows).
  cbv zeta in Hrows.
  set (tb := base.filter (λ kv, selected types kv.2 = true)
                         (MessageTable.table o)) in *.
  set (copy := mk (parser o) tb None None None) in *.
  set (n := Z.of_nat (size tb)) in *.
  set (e := Z.min (top + d_height - 3) n) in *.
  set (s := Z.min top e) in *.
  eexists _, (slice s e (sorted_keys copy)), _. split; [exact Hrows|].
  assert (Hpres : Forall2 (λ k m, tb !! k = Some m)
                    (slice s e (sorted_keys copy))
                    (entries_at tb (slice s e (sorted_keys copy)))).
  { apply entries_at_present. intros k Hk.
    apply (elem_of_sorted_keys copy). unfold slice in Hk.
    eapply elem_of_sublist; [exact Hk|].
    etrans; [apply sublist_take|apply sublist_drop]. }
  split_and!.
  - rewrite <- (Forall2_length _ _ _ Hpres). unfold slice.
    rewrite length_take, length_drop. unfold s, e. lia.
  - eapply Forall2_impl; [exact Hpres|]. intros k m Hkm. cbn beta in Hkm.
    unfold tb in Hkm. apply map_lookup_filter_Some in Hkm as [Hk Hsel].
    split; [done|]. by apply selected_spec.
  - apply StronglySorted_slice, sorted_keys_ascending.
  - intros l x Hx. rewrite lookup_insert_ne; [done|].
    intros <-. by rewrite fresh_not_in_store in Hx.
Qed.

Lemma rows_fit_the_pane_witness :
  ∃ h' ms,
    MessagePane.rows 1%positive [SDO; HEARTBEAT] 0 5 Examples.three
      = Some (h', ms, StopIteration) ∧
    (Z.of_nat (length ms) ≤ 2)%Z.
Proof.
  destruct (rows_fit_the_pane Examples.three 1%positive
              (mk None (<[1%Z := Examples.m1]>
                          (<[2%Z := Examples.m2]> {[ 3%Z := Examples.m3 ]}))
                  None None None) [SDO; HEARTBEAT] 0 5 eq_refl)
    as (h' & ks & ms & Hrows & Hlen & _); [lia|].
  exists h', ms. split; [exact Hrows|exact Hlen].
Defined.

(** [draw] selects its rows twice, the first selection being used up by
    [__check_col_widths]: the second selection gives the same rows again,
    and so does every later one while the table is not written to. *)
Theorem rows_again h table o types (top d_height : Z) :
  h !! table = Some o → (0 ≤ top)%Z →
  ∃ h1 h2 ms,
    MessagePane.rows table types top d_height h
      = Some (h1, ms, StopIteration) ∧
    h1 !! table = Some o ∧
    MessagePane.rows table types top d_height h1
      = Some (h2, ms, StopIteration).
Proof.
  intros Hl Htop.
  destruct (rows_at h table o types top d_height Hl Htop) as (o1 & Hr1).
  assert (Hl1 : <[fresh (dom h) := o1]> h !! table = Some o).
  { rewrite lookup_insert_ne; [done|]. intros Heq.
    by rewrite <- Heq, fresh_not_in_store in Hl. }
  destruct (rows_at _ table o types top d_height Hl1 Htop) as (o2 & Hr2).
  eexists _, _, _. split; [exact Hr1|]. split; [exact Hl1|exact Hr2].
Qed.

Lemma rows_again_witness :
  ∃ h1 h2 ms,
    MessagePane.rows 1%positive [SDO] 0 5 Examples.three
      = Some (h1, ms, StopIteration) ∧
    MessagePane.rows 1%positive [SDO] 0 5 h1 = Some (h2, ms, StopIteration).
Proof.
  destruct (rows_again Examples.three 1%positive
              (mk None (<[1%Z := Examples.m1]>
                          (<[2%Z := Examples.m2]> {[ 3%Z := Examples.m3 ]}))
                  None None None) [SDO] 0 5 eq_refl)
    as (h1 & h2 & ms & Hr1 & _ & Hr2); [lia|].
  exists h1, h2, ms. split; [exact Hr1|exact Hr2].
Defined.

(** One key: the bounds of the pane stay, the cursor stays between them,
    and the top row moves by at most one, never below zero, upwards only
    on [KEY_UP] and downwards only on [KEY_DOWN] with rows below. *)
Lemma press_step p k :
  (MessagePane.cursor_min p < MessagePane.cursor_max p)%Z →
  (MessagePane.cursor_min p ≤ MessagePane.cursor p
   ≤ MessagePane.cursor_max p - 1)%Z →
  (0 ≤ MessagePane.__top p)%Z →
  let p' := MessagePane.press p k in
  MessagePane.cursor_min p' = MessagePane.cursor_min p ∧
  MessagePane.cursor_max p' = MessagePane.cursor_max p ∧
  MessagePane.__top_max p' = MessagePane.__top_max p ∧
  (MessagePane.cursor_min p ≤ MessagePane.cursor p'
   ≤ MessagePane.cursor_max p - 1)%Z ∧
  (0 ≤ MessagePane.__top p')%Z ∧
  (MessagePane.__top p - 1 ≤ MessagePane.__top p'
   ≤ MessagePane.__top p + 1)%Z ∧
  ((MessagePane.__top_max p ≤ 0)%Z →
   (MessagePane.__top p' ≤ MessagePane.__top p)%Z) ∧
  (MessagePane.__top p' ≠ MessagePane.__top p →
   MessagePane.cursor p' = MessagePane.cursor p).
Proof.
  intros Hrange Hc Htop. destruct p as [c cmin cmax top tmax].
  cbn [MessagePane.cursor MessagePane.cursor_min MessagePane.cursor_max
       MessagePane.__top MessagePane.__top_max] in *.
  destruct k; unfold MessagePane.press, MessagePane.scroll_up,
    MessagePane.scroll_down; st_unfold;
    cbn [fst snd MessagePane.set_cursor MessagePane.set_top
         MessagePane.cursor MessagePane.cursor_min MessagePane.cursor_max
         MessagePane.__top MessagePane.__top_max];
    repeat (case_bool_decide;
            cbn [fst snd MessagePane.set_cursor MessagePane.set_top
                 MessagePane.cursor MessagePane.cursor_min
                 MessagePane.cursor_max MessagePane.__top
                 MessagePane.__top_max]);
    split_and!; try done; try lia.
Qed.

(** The scroll position stays sound under any sequence of keys: on a pane
    with room for a row ([cursor_min < cursor_max]), a cursor inside the
    rows and a top row that is not negative, the cursor stays inside the
    rows and the top row stays at or above zero; the top row moves by at
    most one per key, and not downwards at all when no row is below. *)
Theorem scrolling_stays_in_range keys p :
  (MessagePane.cursor_min p < MessagePane.cursor_max p)%Z →
  (MessagePane.cursor_min p ≤ MessagePane.cursor p
   ≤ MessagePane.cursor_max p - 1)%Z →
  (0 ≤ MessagePane.__top p)%Z →
  let p' := foldl MessagePane.press p keys in
  MessagePane.cursor_min p' = MessagePane.cursor_min p ∧
  MessagePane.cursor_max p' = MessagePane.cursor_max p ∧
  MessagePane.__top_max p' = MessagePane.__top_max p ∧
  (MessagePane.cursor_min p ≤ MessagePane.cursor p'
   ≤ MessagePane.cursor_max p - 1)%Z ∧
  (0 ≤ MessagePane.__top p')%Z ∧
  (Z.abs (MessagePane.__top p' - MessagePane.__top p)
   ≤ Z.of_nat (length keys))%Z ∧
  ((MessagePane.__top_max p ≤ 0)%Z →
   (MessagePane.__top p' ≤ MessagePane.__top p)%Z).
Proof.
  revert p. induction keys as [|k keys IH]; intros p Hrange Hc Htop.
  { cbn. split_and!; try done; lia. }
  cbn [foldl length].
  destruct (press_step p k Hrange Hc Htop)
    as (Hmin & Hmax & Htm & Hc1 & Ht1 & Hd1 & Hm1 & _).
  cbv zeta in *.
  destruct (IH (MessagePane.press p k))
    as (Hmin' & Hmax' & Htm' & Hc' & Ht' & Hd' & Hm'); [lia|lia|lia|].
  cbv zeta in *. split_and!; try congruence; lia.
Qed.

Lemma scrolling_stays_in_range_witness :
  let p := foldl MessagePane.press (MessagePane.mk 0 0 5 0 3)
             [MessagePane.KEY_UP; MessagePane.KEY_DOWN; MessagePane.KEY_DOWN] in
  (0 ≤ MessagePane.cursor p ≤ 4)%Z ∧ (0 ≤ MessagePane.__top p)%Z.
Proof.
  destruct (scrolling_stays_in_range
              [MessagePane.KEY_UP; MessagePane.KEY_DOWN; MessagePane.KEY_DOWN]
              (MessagePane.mk 0 0 5 0 3))
    as (_ & _ & _ & Hc & Ht & _); [reflexivity|done|done|].
  split; [exact Hc|exact Ht].
Defined.



(** ** [resize] *)

Lemma len_of h (p : MessagePane.t) x o :
  h !! x = Some o →
  MessagePane.len x (h, p) = ((h, p), Ok (Z.of_nat (size (table o)))).
Proof.
  intros Hl. unfold MessagePane.len, MessagePane.on_tables.
  unfold mbind, ST_bind. by rewrite (len_at _ _ _ Hl).
Qed.

Lemma filter_messages_at h tbl o types (top d_height : Z) :
  h !! tbl = Some o →
  ∃ o',
    MessagePane.__filter_messages tbl types top d_height h
    = (<[fresh (dom h) := o']> h, Ok (fresh (dom h))) ∧
    table o' = base.filter (λ kv, selected types kv.2 = true) (table o).
Proof.
  intros Hl. unfold MessagePane.__filter_messages.
  unfold mbind, ST_bind. rewrite (filter_at _ _ _ types Hl).
  rewrite filter_table.
  pose proof (call_at (<[fresh (dom h) :=
                           mk (parser o)
                              (base.filter
                                 (λ kv, selected types kv.2 = true)
                                 (table o)) None None None]> h)
                (fresh (dom h)) _ top (top + d_height - 3)
                (lookup_insert_eq _ _ _)) as Hc.
  cbv zeta in Hc. rewrite Hc, insert_insert_eq.
  eexists. split; [reflexivity|done].
Qed.

Lemma resize_at h tbl o types d_height p :
  h !! tbl = Some o →
  let tb := base.filter (λ kv, selected types kv.2 = true) (table o) in
  let cmax := Z.min (Z.of_nat (size (table o))) (d_height - 3) in
  ∃ o',
    MessagePane.resize tbl types d_height (h, p)
    = ((<[fresh (dom h) := o']> h,
        MessagePane.set_top_max
          (Z.max 0 (Z.of_nat (size tb) - MessagePane.__top p - cmax))
          (MessagePane.set_cursor_max cmax p)), Ok tt).
Proof.
  intros Hl tb cmax. unfold MessagePane.resize. cbv zeta.
  unfold mbind at 1, ST_bind at 1. rewrite (len_of _ _ _ _ Hl).
  set (n := Z.of_nat (size (table o))) in *.
  assert (Hcmax :
    (if bool_decide (n < d_height - 3)%Z then MessagePane.len tbl
     else mret (d_height - 3)%Z) (h, p) = ((h, p), Ok cmax)).
  { unfold cmax. case_bool_decide.
    - rewrite (len_of _ _ _ _ Hl). fold n. do 2 f_equal. lia.
    - unfold mret, ST_ret. do 2 f_equal. lia. }
  unfold mbind at 1, ST_bind at 1. rewrite Hcmax.
  unfold mbind at 1, ST_bind at 1, MessagePane.on_pane at 1, modify at 1.
  unfold mbind at 1, ST_bind at 1, MessagePane.on_pane at 1, gets at 1.
  unfold mbind at 1, ST_bind at 1, MessagePane.on_tables at 1.
  destruct (filter_messages_at h tbl o types
              (MessagePane.__top (MessagePane.set_cursor_max cmax p))
              d_height Hl) as (o' & -> & Ho').
  exists o'.
  unfold mbind at 1, ST_bind at 1.
  erewrite len_of by apply lookup_insert_eq. rewrite Ho'. fold tb.
  unfold mbind, ST_bind, MessagePane.on_pane, gets, modify.
  destruct p as [c cmin cmx top tmax].
  cbn [MessagePane.__top MessagePane.cursor_max MessagePane.set_cursor_max
       MessagePane.set_top_max MessagePane.cursor MessagePane.cursor_min
       MessagePane.__top_max].
  do 3 f_equal. clear Hcmax. clearbody cmax tb. case_bool_decide; lia.
Qed.

(** [resize] on a pane whose table is in the store returns, whatever the
    height: [cursor_max] becomes the smaller of the number of messages in
    the table (of any type) and [d_height - 3]; [__top_max] becomes the
    number of messages of the pane's types beyond [__top + cursor_max],
    and zero when there is none; the cursor, [cursor_min] and [__top] stay;
    and every object that was in the store is as it was. *)
Theorem resize_recomputes_bounds h tbl o types d_height p :
  h !! tbl = Some o →
  let k := Z.of_nat (size (base.filter (λ kv, selected types kv.2 = true)
                                       (table o))) in
  ∃ h' p',
    MessagePane.resize tbl types d_height (h, p) = ((h', p'), Ok tt) ∧
    MessagePane.cursor_max p'
    = Z.min (Z.of_nat (size (table o))) (d_height - 3) ∧
    MessagePane.__top_max p'
    = Z.max 0 (k - MessagePane.__top p - MessagePane.cursor_max p') ∧
    MessagePane.cursor p' = MessagePane.cursor p ∧
    MessagePane.cursor_min p' = MessagePane.cursor_min p ∧
    MessagePane.__top p' = MessagePane.__top p ∧
    ∀ l x, h !! l = Some x → h' !! l = Some x.
Proof.
  intros Hl k. destruct (resize_at h tbl o types d_height p Hl) as (o' & Hr).
  cbv zeta in Hr. eexists _, _. split; [exact Hr|].
  destruct p as [c cmin cmx top tmax]. cbn. split_and!; try done.
  intros l x Hx. rewrite lookup_insert_ne; [done|].
  intros <-. by rewrite fresh_not_in_store in Hx.
Qed.

Lemma resize_recomputes_bounds_witness :
  ∃ h' p',
    MessagePane.resize 1%positive [SDO] 5 (Examples.three, MessagePane.mk 0 0 0 0 0)
    = ((h', p'), Ok tt) ∧
    MessagePane.cursor_max p' = 2%Z.
Proof.
  destruct (resize_recomputes_bounds Examples.three 1%positive
              (mk None (<[1%Z := Examples.m1]>
                          (<[2%Z := Examples.m2]> {[ 3%Z := Examples.m3 ]}))
                  None None None) [SDO] 5 (MessagePane.mk 0 0 0 0 0) eq_refl)
    as (h' & p' & Hr & Hc & _).
  exists h', p'. split; [exact Hr|]. rewrite Hc. vm_compute. reflexivity.
Defined.

(** [scroll_down] right after [resize]: the window of the pane moves down
    by one row at most, and only when the cursor is on its last row and a
    message of the pane's types lies beyond the rows that the cursor can
    reach, so the moved window still ends within those messages. *)
Theorem scroll_down_stops_at_last_message h tbl o types d_height p :
  h !! tbl = Some o →
  let k := Z.of_nat (size (base.filter (λ kv, selected types kv.2 = true)
                                       (table o))) in
  ∃ h' p',
    MessagePane.resize tbl types d_height (h, p) = ((h', p'), Ok tt) ∧
    let p'' := MessagePane.press p' MessagePane.KEY_DOWN in
    MessagePane.__top p'' = MessagePane.__top p ∨
    (MessagePane.__top p'' = MessagePane.__top p + 1 ∧
     MessagePane.cursor p'' = MessagePane.cursor_max p' - 1 ∧
     MessagePane.__top p'' + MessagePane.cursor_max p' ≤ k)%Z.
Proof.
  intros Hl k. destruct (resize_at h tbl o types d_height p Hl) as (o' & Hr).
  cbv zeta in Hr. eexists _, _. split; [exact Hr|].
  fold k. set (cmax := Z.min _ _). clearbody k cmax.
  destruct p as [c cmin cmx top tmax].
  unfold MessagePane.press, MessagePane.scroll_down. st_unfold.
  cbn [fst snd MessagePane.set_cursor MessagePane.set_top
       MessagePane.set_cursor_max MessagePane.set_top_max
       MessagePane.cursor MessagePane.cursor_min MessagePane.cursor_max
       MessagePane.__top MessagePane.__top_max].
  repeat (case_bool_decide;
          cbn [fst snd MessagePane.set_cursor MessagePane.set_top
               MessagePane.set_cursor_max MessagePane.set_top_max
               MessagePane.cursor MessagePane.cursor_min
               MessagePane.cursor_max MessagePane.__top
               MessagePane.__top_max] in *);
    first [by left | right; lia].
Qed.

Lemma scroll_down_stops_at_last_message_witness :
  ∃ h' p',
    MessagePane.resize 1%positive [SDO; PDO; HEARTBEAT] 5
      (Examples.three, MessagePane.mk 1 0 0 0 0) = ((h', p'), Ok tt) ∧
    MessagePane.__top (MessagePane.press p' MessagePane.KEY_DOWN) = 1%Z.
Proof.
  destruct (scroll_down_stops_at_last_message Examples.three 1%positive
              (mk None (<[1%Z := Examples.m1]>
                          (<[2%Z := Examples.m2]> {[ 3%Z := Examples.m3 ]}))
                  None None None) [SDO; PDO; HEARTBEAT] 5
              (MessagePane.mk 1 0 0 0 0) eq_refl)
    as (h' & p' & Hr & Hd).
  exists h', p'. split; [exact Hr|].
  vm_compute in Hr. injection Hr as <- <-. vm_compute. reflexivity.
Defined.

(** * The application *)

Lemma select_pane_at a pane pos :
  App.__select_pane pane pos a =
    (App.mk pos (Some pane)
       (<[pane := true]>
          match App.selected_pane a with
          | Some old => <[old := false]> (App.pane_selected a)
          | None => App.pane_selected a
          end), Ok tt).
Proof. by destruct a as [apos [old|] flags]. Qed.

(** After [__select_pane(pane, pos)] the application points at [pane] and
    [pos], and [pane] is the one pane whose [selected] is true, provided
    that before the call no pane but the selected one was marked. *)
Theorem select_pane_is_exclusive a pane pos :
  (∀ p, App.pane_selected a !! p = Some true → App.selected_pane a = Some p) →
  ∃ a',
    App.__select_pane pane pos a = (a', Ok tt) ∧
    App.selected_pane a' = Some pane ∧
    App.selected_pane_pos a' = pos ∧
    ∀ p, App.pane_selected a' !! p = Some true ↔ p = pane.
Proof.
  intros Hinv. eexists. split; [apply select_pane_at|].
  cbn [App.selected_pane App.selected_pane_pos App.pane_selected].
  split; [done|]. split; [done|]. intros p.
  destruct (decide (p = pane)) as [->|Hne];
    [rewrite lookup_insert_eq; by split|].
  rewrite lookup_insert_ne by done. split; [|done]. intros Hsel.
  destruct (App.selected_pane a) as [old|] eqn:Hold.
  - destruct (decide (p = old)) as [->|Hne'].
    + by rewrite lookup_insert_eq in Hsel.
    + rewrite lookup_insert_ne in Hsel by done.
      specialize (Hinv p Hsel). congruence.
  - by specialize (Hinv p Hsel).
Qed.

Lemma select_pane_is_exclusive_witness :
  ∃ a',
    App.__select_pane 2 1 (App.mk 0 (Some 1%positive) {[ 1%positive := true ]})
      = (a', Ok tt) ∧
    App.pane_selected a' !! 1%positive ≠ Some true.
Proof.
  destruct (select_pane_is_exclusive
              (App.mk 0 (Some 1%positive) {[ 1%positive := true ]}) 2 1)
    as (a' & Hsel & _ & _ & Honly).
  - intros p Hp. cbn in *. destruct (decide (p = 1%positive)) as [->|Hne].
    + reflexivity.
    + by rewrite lookup_singleton_ne in Hp.
  - exists a'. split; [exact Hsel|]. intros Hone.
    apply Honly in Hone. discriminate Hone.
Defined.

(** ** [pad_hex] *)








Lemma ascii_to_digit_upper c :
  HexString.ascii_to_digit (App.upper_char c) = HexString.ascii_to_digit c.
Proof. destruct c as [[] [] [] [] [] [] [] []]; vm_compute; reflexivity. Qed.

Lemma to_N_upper s acc :
  HexString.Raw.to_N (App.upper s) acc = HexString.Raw.to_N s acc.
Proof.
  revert acc. induction s as [|c s IH]; intros acc; [done|].
  cbn [App.upper HexString.Raw.to_N]. by rewrite ascii_to_digit_upper, IH.
Qed.

Lemma to_N_leading_zeros n s :
  HexString.Raw.to_N (App.repeat_char "0" n +:+ s) 0
  = HexString.Raw.to_N s 0.
Proof. induction n as [|n IH]; [done|]. exact IH. Qed.

(** [pad_hex] of a positive number and of a negative one, digit string
    left as it is. *)
Lemma pad_hex_pos p :
  App.pad_hex (Z.pos p)
  = String "0" (String "x"
      (App.rjust 3 "0" (App.upper (HexString.Raw.of_pos p "")))).
Proof. reflexivity. Qed.

Lemma pad_hex_neg p :
  App.pad_hex (Z.neg p)
  = String "0" (String "x"
      (App.rjust 3 "0"
         (String "X" (App.upper (HexString.Raw.of_pos p ""))))).
Proof. reflexivity. Qed.

(** Reading [pad_hex(value)] back as a hexadecimal numeral gives [value]
    again, for every value that is not negative: the padding and the upper
    case do not change the number that the text stands for. *)
Theorem pad_hex_reads_back (value : Z) :
  (0 ≤ value)%Z → HexString.to_Z (App.pad_hex value) = value.
Proof.
  intros Hv. destruct value as [|p|p]; [reflexivity| |lia].
  rewrite pad_hex_pos. unfold HexString.to_Z, HexString.to_N.
  cbn [ascii_dec ascii_rec ascii_rect Bool.bool_dec bool_rec bool_rect
       sumbool_rec sumbool_rect]. unfold App.rjust.
  rewrite to_N_leading_zeros, to_N_upper, HexString.Raw.to_N_of_pos.
  reflexivity.
Qed.

Lemma pad_hex_reads_back_witness :
  HexString.to_Z (App.pad_hex 0x181) = 0x181%Z.
Proof. apply (pad_hex_reads_back 0x181). lia. Defined.



(** * More of the frame bus *)

Import TheMagicCanBus.

(** ** What no call on the bus undoes *)

(** A property of the bus that [stop], a listener's turn, a join, a
    printed line and the setting of the signal keep is kept by
    [stop_all]. *)
Lemma stop_all_preserves (P : world → Prop) :
  (∀ dev w, P w → P (stop dev w).1) →
  (∀ th w, P w → P (listen th w)) →
  (∀ th w, P w → P (log_join th w)) →
  (∀ line w, P w → P (print line w)) →
  (∀ w, P w → P (upd_bus set_stop_listening w)) →
  ∀ w w' r, P w → stop_all w = Some (w', r) → P w'.
Proof.
  intros Hstop Hlisten Hjoin Hprint Hset.
  assert (Hfor : ∀ fuel i w w' r,
            P w → for_devs fuel i stop w = Some (w', r) → P w').
  { induction fuel as [|fuel IH]; intros i w w' r HP Hf; [done|].
    cbn [for_devs] in Hf. destruct (devs (bus w) !! i) as [dev|].
    - specialize (Hstop dev w HP).
      destruct (stop dev w) as [w1 [[]|e]]; cbn [fst] in Hstop.
      + eapply IH; [exact Hstop|exact Hf].
      + by injection Hf as <- _.
    - by injection Hf as <- _. }
  assert (Hj : ∀ fuel th w w', P w → join fuel th w = Some w' → P w').
  { induction fuel as [|fuel IH]; intros th w w' HP Hf; cbn [join] in Hf;
      destruct (thread_objs w !! th) as [[dev []]|]; try done;
      try (injection Hf as <-; by apply Hjoin).
    eapply IH; [|exact Hf]. by apply Hlisten. }
  assert (Hje : ∀ ths w w', P w → join_each ths w = Some w' → P w').
  { induction ths as [|th ths IH]; intros w w' HP Hf; cbn [join_each] in Hf.
    - by injection Hf as <-.
    - destruct (join (join_fuel th w) th w) as [w1|] eqn:Hj1; [|done].
      cbn in Hf. eapply IH; [|exact Hf]. by eapply Hj. }
  intros w w' r HP Hs. unfold stop_all in Hs.
  destruct (for_devs _ 0 stop w) as [[w1 r1]|] eqn:Hf1; [|done].
  cbn [mbind option_bind] in Hs. apply Hfor in Hf1; [|done].
  destruct r1 as [[]|e]; [|by injection Hs as <- _].
  cbv zeta in Hs. case_bool_decide.
  - destruct (join_each _ _) as [w2|] eqn:Hj2; [|done]. cbn in Hs.
    injection Hs as <- _. apply Hprint. eapply Hje; [|exact Hj2].
    by apply Hprint, Hset.
  - injection Hs as <- _. by apply Hprint, Hprint, Hset.
Qed.

Lemma receive_at w :
  receive w =
    match frames (bus w) with
    | [] => (w, Ok None)
    | res :: fs => (upd_bus (set_frames fs) w, Ok (Some res))
    end.
Proof. unfold receive. st_unfold. by destruct (frames (bus w)). Qed.

Lemma bus_ok_stop_1 dev w : bus_ok w → bus_ok (stop dev w).1.
Proof.
  intros Hok. destruct (stop dev w) as [w' r] eqn:Hs. by eapply bus_ok_stop.
Qed.

Lemma bus_ok_run_op w op : bus_ok w → bus_ok (run_op w op).
Proof.
  intros Hok. destruct op as [name|dev|th| |]; cbn [run_op].
  - destruct (start name w) as [w' r] eqn:Hs. by eapply bus_ok_start.
  - by apply bus_ok_stop_1.
  - by apply bus_ok_listen.
  - rewrite receive_at. destruct (frames (bus w)); [done|].
    by eapply bus_ok_shrink; [| | | |exact Hok].
  - destruct (stop_all w) as [[w' r]|] eqn:Hs; [|done].
    eapply (stop_all_preserves bus_ok); [| | | | |exact Hok|exact Hs].
    + apply bus_ok_stop_1.
    + intros th. apply bus_ok_listen.
    + intros th w0 Hok0. by eapply bus_ok_shrink; [| | | |exact Hok0].
    + intros line w0 Hok0. by eapply bus_ok_shrink; [| | | |exact Hok0].
    + intros w0 Hok0. by eapply bus_ok_shrink; [| | | |exact Hok0].
Qed.

(** Whatever the owner of the bus and the listeners do, in whatever
    order ([start], [stop], [stop_all], [receive], turns of listeners),
    the handles in [devs] stay pairwise distinct objects and every entry
    of [threads] stays a thread object. *)
Theorem handles_stay_distinct ops w :
  bus_ok w →
  bus_ok (run_ops ops w) ∧ NoDup (devs (bus (run_ops ops w))).
Proof.
  intros Hok. assert (bus_ok (run_ops ops w)) as Hok'; [|by split; [|apply Hok']].
  revert w Hok. induction ops as [|op ops IH]; intros w Hok; [done|].
  cbn. apply IH. by apply bus_ok_run_op.
Qed.

Lemma handles_stay_distinct_witness :
  NoDup (devs (bus (run_ops [DoStart "can0"; DoStart "can0"; DoListen 0;
                             DoStop Examples.can0; DoStopAll]
                            Examples.machine))).
Proof.
  apply (handles_stay_distinct
           [DoStart "can0"; DoStart "can0"; DoListen 0;
            DoStop Examples.can0; DoStopAll] Examples.machine).
  split_and!; [constructor|constructor|].
  intros th Hin. by apply elem_of_nil in Hin.
Defined.





(** A second [stop] of the same handle raises [ValueError] and changes
    nothing, the handles of the bus being distinct. *)
Theorem stop_twice_raises w dev :
  NoDup (devs (bus w)) → dev ∈ devs (bus w) →
  ∃ w1, stop dev w = (w1, Ok tt) ∧
        stop dev w1 = (w1, Raise ValueError).
Proof.
  intros Hnd Hin.
  destruct (stop_attached dev w Hin) as (l1 & l2 & Hs & Hl1 & Hstop).
  eexists. split; [exact Hstop|]. apply stop_detached.
  cbn [upd_bus set_devs bus devs]. rewrite Hs in Hnd.
  apply NoDup_app in Hnd as (_ & Hdis & Hnd).
  apply NoDup_cons in Hnd as [Hl2 _]. rewrite elem_of_app.
  intros [?|?]; [|done]. apply (Hdis dev); [done|apply list_elem_of_here].
Qed.

Lemma stop_twice_raises_witness :
  ∃ w1, stop Examples.can0 Examples.two_devices = (w1, Ok tt) ∧
        stop Examples.can0 w1 = (w1, Raise ValueError).
Proof.
  apply (stop_twice_raises Examples.two_devices Examples.can0).
  - vm_compute. apply NoDup_cons. split; [|apply NoDup_singleton].
    intros Hin. apply list_elem_of_singleton in Hin. discriminate Hin.
  - vm_compute. apply list_elem_of_here.
Defined.

(** [stop(dev)] does not stop the listener of [dev]: the thread stays
    alive, and on its next turn it puts the frame it receives on the queue
    as if nothing had happened. *)
Theorem stopped_device_still_delivers w th dev f rest :
  thread_objs w !! th = Some (mkThread dev Alive) →
  stop_listening (bus w) = false →
  hw w !! dev_id dev = Some ((Received f, Stored) :: rest) →
  dev ∈ devs (bus w) →
  ∃ w1, stop dev w = (w1, Ok tt) ∧
        thread_objs w1 !! th = Some (mkThread dev Alive) ∧
        frames (bus (listen th w1)) = frames (bus w) ++ [(f, ndev dev)] ∧
        thread_objs (listen th w1) !! th = Some (mkThread dev Alive) ∧
        devs (bus (listen th w1)) = devs (bus w1).
Proof.
  intros Hth Hstop Hhw Hin.
  destruct (stop_attached dev w Hin) as (l1 & l2 & Hs & Hl1 & Hst).
  eexists. split; [exact Hst|]. split; [exact Hth|].
  by rewrite (listen_delivers th dev _ f rest).
Qed.

Lemma stopped_device_still_delivers_witness :
  ∃ w1,
    stop Examples.can0
      (upd_hw (λ _, {[ 0 := [(Received (mkFrame 5 []), Stored)] ]})
         Examples.two_devices) = (w1, Ok tt) ∧
    frames (bus (listen 0 w1)) = [(mkFrame 5 [], "can0")].
Proof.
  destruct (stopped_device_still_delivers
              (upd_hw (λ _, {[ 0 := [(Received (mkFrame 5 []), Stored)] ]})
                 Examples.two_devices) 0 Examples.can0 (mkFrame 5 []) [])
    as (w1 & Hst & _ & Hfr & _).
  - reflexivity.
  - reflexivity.
  - reflexivity.
  - vm_compute. apply list_elem_of_here.
  - exists w1. split; [exact Hst|exact Hfr].
Defined.

(** A listener whose handle is no longer in [devs] (after [stop(dev)] or
    [stop_all]) and whose [recv] then raises [OSError] does not return: the
    [remove] in its handler raises [ValueError], which nothing catches; the
    bus is as it was. *)
Theorem detached_listener_dies w th dev p rest :
  thread_objs w !! th = Some (mkThread dev Alive) →
  stop_listening (bus w) = false →
  hw w !! dev_id dev = Some ((RecvFails, p) :: rest) →
  dev ∉ devs (bus w) →
  thread_objs (listen th w) !! th = Some (mkThread dev (Died ValueError)) ∧
  bus (listen th w) = bus w.
Proof.
  intros Hth Hstop Hhw Hout.
  rewrite (listen_recv_fails _ _ _ _ _ Hth Hstop Hhw).
  rewrite (list_remove_not_elem_of _ _ Hout).
  split; [apply lookup_insert_eq|done].
Qed.

Lemma detached_listener_dies_witness :
  let w := upd_hw (λ _, {[ 0 := [(RecvFails, Stored)] ]})
             (stop Examples.can0 Examples.two_devices).1 in
  thread_objs (listen 0 w) !! 0
  = Some (mkThread Examples.can0 (Died ValueError)).
Proof.
  apply (detached_listener_dies
           (upd_hw (λ _, {[ 0 := [(RecvFails, Stored)] ]})
              (stop Examples.can0 Examples.two_devices).1)
           0 Examples.can0 Stored []).
  - reflexivity.
  - reflexivity.
  - reflexivity.
  - vm_compute. intros Hin. apply list_elem_of_singleton in Hin.
    discriminate Hin.
Defined.

(** ** The queue *)

Lemma upd_bus_same_frames w : upd_bus (set_frames (frames (bus w))) w = w.
Proof. by destruct w as [[] ? ? ? ? ? ?]. Qed.

(** Calls of [receive] hand out the queue from its front, and [None] once
    it is empty. *)
Lemma receive_n_drains k w :
  receive_n (length (frames (bus w)) + k) w
  = (upd_bus (set_frames []) w,
     (Some <$> frames (bus w)) ++ replicate k None).
Proof.
  remember (frames (bus w)) as fs eqn:Hfs. revert w Hfs.
  induction fs as [|res fs IH]; intros w Hfs.
  - cbn [length Nat.add fmap list_fmap app].
    assert (upd_bus (set_frames []) w = w) as ->
      by (rewrite Hfs; apply upd_bus_same_frames).
    induction k as [|k IHk]; [done|].
    cbn [receive_n replicate]. rewrite receive_at, <- Hfs. by rewrite IHk.
  - cbn [length Nat.add receive_n]. rewrite receive_at, <- Hfs.
    rewrite (IH (upd_bus (set_frames fs) w)) by done. done.
Qed.

(** First in, first out: a frame that a listener puts on the queue comes
    out of [receive] after every frame that was on the queue before it,
    paired with the name of its device; after that [receive] returns
    [None]. *)
Theorem receive_is_first_in_first_out w th dev f rest k :
  thread_objs w !! th = Some (mkThread dev Alive) →
  stop_listening (bus w) = false →
  hw w !! dev_id dev = Some ((Received f, Stored) :: rest) →
  ∃ w',
    receive_n (length (frames (bus w)) + 1 + k) (listen th w)
    = (w', (Some <$> frames (bus w)) ++ Some (f, ndev dev)
             :: replicate k None) ∧
    frames (bus w') = [].
Proof.
  intros Hth Hstop Hhw. rewrite (listen_delivers _ _ _ _ _ Hth Hstop Hhw).
  set (w1 := upd_bus _ _).
  assert (Hfr : frames (bus w1) = frames (bus w) ++ [(f, ndev dev)]) by done.
  replace (length (frames (bus w)) + 1 + k)
    with (length (frames (bus w1)) + k)
    by (rewrite Hfr, length_app; cbn; lia).
  rewrite receive_n_drains, Hfr, fmap_app, <- (assoc_L (++)).
  by eexists.
Qed.

Lemma receive_is_first_in_first_out_witness :
  ∃ w',
    receive_n 2
      (listen 0 (upd_hw (λ _, {[ 0 := [(Received (mkFrame 5 []), Stored)] ]})
                   Examples.two_devices))
    = (w', [Some (mkFrame 5 [], "can0"); None]).
Proof.
  destruct (receive_is_first_in_first_out
              (upd_hw (λ _, {[ 0 := [(Received (mkFrame 5 []), Stored)] ]})
                 Examples.two_devices) 0 Examples.can0 (mkFrame 5 []) [] 1)
    as (w' & Hr & _); [reflexivity|reflexivity|reflexivity|].
  exists w'. exact Hr.
Defined.

(** ** Building a bus *)

Lemma start_keeps_pairs name w :
  name ∈ ifaces w →
  Forall2 (λ d th, thread_objs w !! th = Some (mkThread d Alive))
          (devs (bus w)) (threads (bus w)) →
  Forall (λ th, th < next_id w) (threads (bus w)) →
  let w' := (start name w).1 in
  Forall2 (λ d th, thread_objs w' !! th = Some (mkThread d Alive))
          (devs (bus w')) (threads (bus w')) ∧
  Forall (λ th, th < next_id w') (threads (bus w')) ∧
  ndev <$> devs (bus w') = (ndev <$> devs (bus w)) ++ [name] ∧
  ifaces w' = ifaces w ∧
  stop_listening (bus w') = stop_listening (bus w) ∧
  frames (bus w') = frames (bus w).
Proof.
  intros Hin Hpairs Hlt. cbv zeta. rewrite (start_at _ _ Hin).
  cbn [fst bus devs threads thread_objs next_id ifaces stop_listening frames].
  split_and!; try done.
  - apply Forall2_app.
    + clear Hin. induction Hpairs as [|d th ds ths Hd _ IH]; [constructor|].
      apply Forall_cons in Hlt as [Hth Hlt].
      constructor; [|by apply IH]. rewrite lookup_insert_ne by lia. done.
    + constructor; [apply lookup_insert_eq|constructor].
  - apply Forall_app. split.
    + eapply Forall_impl; [exact Hlt|]. intros th Hth. cbn in *. lia.
    + apply Forall_singleton. lia.
  - by rewrite fmap_app.
Qed.

Lemma for_list_start names w :
  Forall (λ name, name ∈ ifaces w) names →
  bus_ok w →
  Forall2 (λ d th, thread_objs w !! th = Some (mkThread d Alive))
          (devs (bus w)) (threads (bus w)) →
  Forall (λ th, th < next_id w) (threads (bus w)) →
  ∃ w',
    for_list names start w = (w', Ok tt) ∧
    bus_ok w' ∧
    Forall2 (λ d th, thread_objs w' !! th = Some (mkThread d Alive))
            (devs (bus w')) (threads (bus w')) ∧
    ndev <$> devs (bus w') = (ndev <$> devs (bus w)) ++ names ∧
    stop_listening (bus w') = stop_listening (bus w) ∧
    frames (bus w') = frames (bus w).
Proof.
  revert w. induction names as [|name names IH];
    intros w Hnames Hok Hpairs Hlt.
  { exists w. split_and!; try done. by rewrite (right_id_L [] (++)). }
  apply Forall_cons in Hnames as [Hname Hnames].
  destruct (start_keeps_pairs name w Hname Hpairs Hlt)
    as (Hpairs1 & Hlt1 & Hnd1 & Hif1 & Hs1 & Hf1).
  cbv zeta in *.
  assert (Hok1 : bus_ok (start name w).1).
  { destruct (start name w) as [w1 r] eqn:Hst. by eapply bus_ok_start. }
  destruct (IH (start name w).1) as (w' & Hrun & Hok' & Hp' & Hn' & Hs' & Hf');
    try done.
  { by rewrite Hif1. }
  exists w'. split_and!; try done.
  - cbn [for_list]. unfold mbind, ST_bind.
    rewrite (start_at _ _ Hname) in *. exact Hrun.
  - by rewrite Hn', Hnd1, <- (assoc_L (++)).
  - by rewrite Hs', Hs1.
  - by rewrite Hf', Hf1.
Qed.

(** [TheMagicCanBus(names)] with interfaces that all exist: the handles in
    [devs] are the interfaces in the order given, pairwise distinct; the
    i-th entry of [threads] is an alive listener for the i-th handle; the
    signal is clear and the queue empty. *)
Theorem init_spawns_one_listener_per_device names b w :
  Forall (λ name, name ∈ ifaces w) names →
  ∃ w',
    __init__ names b w = (w', Ok tt) ∧
    ndev <$> devs (bus w') = names ∧
    Forall2 (λ d th, thread_objs w' !! th = Some (mkThread d Alive))
            (devs (bus w')) (threads (bus w')) ∧
    NoDup (devs (bus w')) ∧
    stop_listening (bus w') = false ∧
    frames (bus w') = [].
Proof.
  intros Hnames. unfold __init__, mbind, ST_bind, modify.
  set (w0 := upd_bus (λ _, mk [] [] false b []) w).
  destruct (for_list_start names w0) as (w' & Hrun & Hok & Hp & Hn & Hs & Hf).
  - done.
  - split_and!; [constructor|constructor|].
    intros th Hin. by apply elem_of_nil in Hin.
  - constructor.
  - constructor.
  - exists w'. split_and!; try done. apply Hok.
Qed.

Lemma init_spawns_one_listener_per_device_witness :
  ∃ w',
    __init__ ["can0"; "can1"] true Examples.machine = (w', Ok tt) ∧
    ndev <$> devs (bus w') = ["can0"; "can1"].
Proof.
  destruct (init_spawns_one_listener_per_device ["can0"; "can1"] true
              Examples.machine) as (w' & Hrun & Hn & _).
  - repeat constructor.
  - exists w'. split; [exact Hrun|exact Hn].
Defined.

(** ** [stop_all], in general *)




(** * The columns of a pane *)

Import MessageTable.

Section widths_facts.
Context {F : Type}.
Variable str_attr : Message → string → result string.

Local Abbreviation widened := (MessagePane.widened str_attr).
Local Abbreviation attr_len := (MessagePane.attr_len str_attr).
Local Abbreviation readable := (MessagePane.readable str_attr).

Lemma dict_set_middle {V} (pre suf : list (string * V)) k v v0 :
  k ∉ pre.*1 →
  MessagePane.dict_set k v (pre ++ (k, v0) :: suf) = pre ++ (k, v) :: suf.
Proof.
  induction pre as [|[k' v'] pre IH]; intros Hk; cbn.
  - by rewrite decide_True.
  - cbn in Hk. apply not_elem_of_cons in Hk as [Hne Hk].
    rewrite decide_False by done. by rewrite IH.
Qed.

Lemma widened_attr_name m (data : MessagePane.column F) :
  MessagePane.attr_name (widened m data) = MessagePane.attr_name data.
Proof. unfold MessagePane.widened. by case_bool_decide. Qed.

Lemma for_list_cons_ok {S A} (body : A → ST S unit) x l s s' :
  body x s = (s', Ok tt) → for_list (x :: l) body s = for_list l body s'.
Proof. intros Hx. cbn [for_list]. unfold mbind, ST_bind. by rewrite Hx. Qed.

Lemma check_item_at m name (data : MessagePane.column F) text
    (c : MessagePane.columns F) :
  str_attr m (MessagePane.attr_name data) = Ok text →
  (text ← lift (str_attr m (MessagePane.attr_name data));
   let len := Z.of_nat (String.length text) in
   if bool_decide (MessagePane.col_width data < len)%Z then
     modify (MessagePane.set_col name
               (MessagePane.mkColumn (MessagePane.attr_name data) len None));;
     modify MessagePane.clear
   else mret tt) c
  = (if bool_decide (MessagePane.col_width data
                     < Z.of_nat (String.length text))%Z
     then MessagePane.mkColumns
            (MessagePane.dict_set name
               (MessagePane.mkColumn (MessagePane.attr_name data)
                  (Z.of_nat (String.length text)) None)
               (MessagePane.cols c))
            (S (MessagePane.clears c))
     else c, Ok tt).
Proof.
  intros Htext. st_unfold. rewrite Htext. cbv zeta.
  by case_bool_decide.
Qed.

Lemma check_items m (pre suf : list (string * MessagePane.column F)) n :
  NoDup (pre ++ suf).*1 → readable suf m →
  ∃ n',
    for_list suf (λ '(name, data),
      text ← lift (str_attr m (MessagePane.attr_name data));
      let len := Z.of_nat (String.length text) in
      if bool_decide (MessagePane.col_width data < len)%Z then
        modify (MessagePane.set_col name
                  (MessagePane.mkColumn (MessagePane.attr_name data) len None));;
        modify MessagePane.clear
      else mret tt) (MessagePane.mkColumns (pre ++ suf) n)
    = (MessagePane.mkColumns (pre ++ (prod_map id (widened m) <$> suf)) n',
       Ok tt) ∧ n ≤ n'.
Proof.
  revert pre n. induction suf as [|[name data] suf IH]; intros pre n Hnd Hread.
  { exists n. by split. }
  destruct (Hread name data) as [text Htext]; [apply list_elem_of_here|].
  assert (Hread' : readable suf m).
  { intros name' data' Hin. apply (Hread name' data').
    by apply list_elem_of_further. }
  assert (Hfresh : name ∉ pre.*1).
  { rewrite fmap_app in Hnd. apply NoDup_app in Hnd as (_ & Hdis & _).
    intros Hin. apply (Hdis name Hin). cbn. apply list_elem_of_here. }
  erewrite for_list_cons_ok by (apply (check_item_at m name data text), Htext).
  cbn [fmap list_fmap prod_map fst snd id MessagePane.cols MessagePane.clears].
  unfold MessagePane.widened at 1, MessagePane.attr_len. rewrite Htext.
  case_bool_decide.
  - rewrite dict_set_middle by done.
    destruct (IH (pre ++ [(name, MessagePane.mkColumn
                                   (MessagePane.attr_name data)
                                   (Z.of_nat (String.length text)) None)])
                 (S n)) as (n' & Hrun & Hn'); [|done|].
    { rewrite <- (assoc_L (++)). cbn. rewrite !fmap_app in *. exact Hnd. }
    rewrite <- (assoc_L (++)) in Hrun. cbn [app] in Hrun.
    exists n'. split; [|lia]. rewrite Hrun. by rewrite <- (assoc_L (++)).
  - destruct (IH (pre ++ [(name, data)]) n) as (n' & Hrun & Hn'); [|done|].
    { by rewrite <- (assoc_L (++)). }
    rewrite <- (assoc_L (++)) in Hrun. cbn [app] in Hrun.
    exists n'. split; [|lia]. rewrite Hrun. by rewrite <- (assoc_L (++)).
Qed.

(** One message widens every column that is too narrow for it. *)
Lemma check_message_at m (c : MessagePane.columns F) :
  NoDup (MessagePane.cols c).*1 → readable (MessagePane.cols c) m →
  ∃ n',
    MessagePane.check_message str_attr m c
    = (MessagePane.mkColumns (prod_map id (widened m) <$> MessagePane.cols c)
                             n', Ok tt) ∧
    MessagePane.clears c ≤ n'.
Proof.
  intros Hnd Hread. destruct c as [items n].
  unfold MessagePane.check_message. unfold mbind at 1, ST_bind at 1, gets.
  cbn [MessagePane.cols MessagePane.clears] in *.
  exact (check_items m [] items n Hnd Hread).
Qed.

Lemma readable_widened (items : list (string * MessagePane.column F)) m m' :
  readable items m → readable (prod_map id (widened m') <$> items) m.
Proof.
  intros Hread name data Hin. apply list_elem_of_fmap in Hin
    as ([name0 data0] & [= -> ->] & Hin).
  rewrite widened_attr_name. by eapply Hread.
Qed.

(** The loop of [__check_col_widths] against the plain iteration: it ends
    with the iterator where the iteration leaves it, and every column has
    seen every message that was handed out. *)
Lemma check_loop_at fuel it h (c : MessagePane.columns F) h' ms e :
  consume fuel it h = Some (h', ms, e) →
  NoDup (MessagePane.cols c).*1 → Forall (readable (MessagePane.cols c)) ms →
  ∃ n',
    MessagePane.check_loop str_attr fuel it h c
    = Some (h',
            MessagePane.mkColumns
              (prod_map id (λ data, foldl (λ d m, widened m d) data ms)
                 <$> MessagePane.cols c) n',
            if decide (e = StopIteration) then Ok tt else Raise e) ∧
    MessagePane.clears c ≤ n'.
Proof.
  revert h c ms. induction fuel as [|fuel IH]; intros h c ms Hc Hnd Hread;
    [done|].
  cbn [consume MessagePane.check_loop] in *.
  destruct (__next__ it h) as [h1 [m|ex]].
  - destruct (consume fuel it h1) as [[[h2 ms2] e2]|] eqn:Hc2; [|done].
    cbn in Hc. injection Hc as <- <- <-.
    apply Forall_cons in Hread as [Hm Hread].
    destruct (check_message_at m c Hnd Hm) as (n1 & -> & Hn1).
    destruct (IH h1 (MessagePane.mkColumns
                       (prod_map id (widened m) <$> MessagePane.cols c) n1)
                 ms2 Hc2) as (n' & Hrun & Hn').
    { cbn [MessagePane.cols]. rewrite <- list_fmap_compose.
      by rewrite (list_fmap_ext _ fst (MessagePane.cols c))
        by (by intros ? []). }
    { cbn [MessagePane.cols]. eapply Forall_impl; [exact Hread|].
      intros m'. apply readable_widened. }
    exists n'. split; [|cbn in Hn'; lia]. rewrite Hrun.
    cbn [MessagePane.cols foldl]. rewrite <- list_fmap_compose.
    do 3 f_equal.
  - injection Hc as <- <- <-. exists (MessagePane.clears c).
    split; [|done]. destruct c as [items n]. cbn [MessagePane.cols foldl].
    rewrite (list_fmap_ext _ id items) by (by intros ? []).
    rewrite list_fmap_id.
    destruct ex; by repeat case_decide.
Qed.

(** A column after a list of messages. *)
Lemma widened_all (data : MessagePane.column F) ms :
  let data' := foldl (λ d m, widened m d) data ms in
  MessagePane.attr_name data' = MessagePane.attr_name data ∧
  (MessagePane.col_width data ≤ MessagePane.col_width data')%Z ∧
  (∀ m, m ∈ ms →
        (attr_len m (MessagePane.attr_name data)
         ≤ MessagePane.col_width data')%Z) ∧
  (MessagePane.col_width data' = MessagePane.col_width data → data' = data) ∧
  ((MessagePane.col_width data < MessagePane.col_width data')%Z →
   MessagePane.formatter data' = None ∧
   ∃ m, m ∈ ms ∧
        MessagePane.col_width data'
        = attr_len m (MessagePane.attr_name data)).
Proof.
  revert data. induction ms as [|m ms IH]; intros data; cbv zeta.
  { cbn. split_and!; try done; try lia.
    intros m Hin. by apply elem_of_nil in Hin. }
  cbn [foldl]. specialize (IH (widened m data)). cbv zeta in IH.
  destruct IH as (Ha & Hle & Hall & Hsame & Hgrow).
  set (data' := foldl _ _ ms) in *.
  rewrite widened_attr_name in *.
  unfold MessagePane.widened in *. case_bool_decide as Hw;
    cbn [MessagePane.col_width MessagePane.attr_name
         MessagePane.formatter] in *.
  - split_and!; try done; try lia.
    + intros m' Hin. apply elem_of_cons in Hin as [->|Hin]; [lia|].
      by apply Hall.
    + intros _.
      destruct (decide (MessagePane.col_width data'
                        = attr_len m (MessagePane.attr_name data)))
        as [Heq|Hne].
      * rewrite (Hsame Heq). split; [done|]. exists m.
        split; [apply list_elem_of_here|done].
      * destruct Hgrow as (Hf & m' & Hin & Hm'); [lia|].
        split; [done|]. exists m'. split; [by apply list_elem_of_further|done].
  - split_and!; try done.
    + intros m' Hin. apply elem_of_cons in Hin as [->|Hin]; [lia|].
      by apply Hall.
    + intros Hlt. destruct (Hgrow Hlt) as (Hf & m' & Hin & Hm').
      split; [done|]. exists m'. split; [by apply list_elem_of_further|done].
Qed.

End widths_facts.

Lemma Forall2_fmap_self {A} (R : A → A → Prop) (f : A → A) (l : list A) :
  (∀ x, x ∈ l → R x (f x)) → Forall2 R l (f <$> l).
Proof.
  induction l as [|x l IH]; intros Hall; [constructor|].
  cbn. constructor; [apply Hall, list_elem_of_here|].
  apply IH. intros y Hy. by apply Hall, list_elem_of_further.
Qed.

(** [__check_col_widths] over an iteration that ends by [StopIteration]:
    it returns with the iterator used up as the iteration leaves it; the
    columns keep their names, order and attributes; no column gets
    narrower and each is as wide as the longest text among the messages
    handed out; a column that did not grow is untouched, and one that grew
    has the width of one of the texts and has lost its formatter. *)
Theorem check_col_widths_widens_and_forgets {F}
    (str_attr : Message → string → result string)
    messages h (c : MessagePane.columns F) h' ms :
  for_in messages h = Some (h', ms, StopIteration) →
  NoDup (MessagePane.cols c).*1 →
  Forall (MessagePane.readable str_attr (MessagePane.cols c)) ms →
  ∃ c',
    MessagePane.__check_col_widths str_attr messages h c
      = Some (h', c', Ok tt) ∧
    (MessagePane.cols c').*1 = (MessagePane.cols c).*1 ∧
    Forall2 (λ old new,
      MessagePane.attr_name new.2 = MessagePane.attr_name old.2 ∧
      (MessagePane.col_width old.2 ≤ MessagePane.col_width new.2)%Z ∧
      (∀ m, m ∈ ms →
            (MessagePane.attr_len str_attr m (MessagePane.attr_name old.2)
             ≤ MessagePane.col_width new.2)%Z) ∧
      (MessagePane.col_width new.2 = MessagePane.col_width old.2 →
       new = old) ∧
      ((MessagePane.col_width old.2 < MessagePane.col_width new.2)%Z →
       MessagePane.formatter new.2 = None ∧
       ∃ m, m ∈ ms ∧
            MessagePane.col_width new.2
            = MessagePane.attr_len str_attr m (MessagePane.attr_name old.2)))
      (MessagePane.cols c) (MessagePane.cols c').
Proof.
  intros Hfor Hnd Hread. unfold for_in in Hfor.
  unfold MessagePane.__check_col_widths.
  destruct (h !! messages) as [o|] eqn:Hl; cycle 1.
  { unfold __iter__ in Hfor. by rewrite (invoke_dangling _ _ _ Hl) in Hfor. }
  rewrite (iter_at _ _ _ Hl) in *.
  destruct (check_loop_at str_attr _ _ _ c _ _ _ Hfor Hnd Hread)
    as (n' & Hrun & _).
  rewrite decide_True in Hrun by done.
  eexists. split; [exact Hrun|]. cbn [MessagePane.cols]. split.
  - rewrite <- list_fmap_compose. apply list_fmap_ext. by intros ? [].
  - apply Forall2_fmap_self. intros [name data] _. cbn [prod_map fst snd id].
    destruct (widened_all str_attr data ms) as (Ha & Hle & Hall & Hsame & Hgrow).
    cbv zeta in *. split_and!; try done.
    intros Heq. by rewrite (Hsame Heq).
Qed.

Lemma check_col_widths_widens_and_forgets_witness :
  ∃ h1 h2 c',
    __call__ 1%positive (PyInt 0) (PyInt 3) Examples.three
      = (h1, Ok 1%positive) ∧
    MessagePane.__check_col_widths Screens.text_of 1%positive h1
      Screens.two_columns = Some (h2, c', Ok tt) ∧
    (MessagePane.cols c').*1 = ["COB ID"; "Message"].
Proof.
  eexists _, _. 
  destruct (check_col_widths_widens_and_forgets Screens.text_of 1%positive
              (__call__ 1%positive (PyInt 0) (PyInt 3) Examples.three).1
              Screens.two_columns
              (default (∅, [], StopIteration)
                 (for_in 1%positive
                    (__call__ 1%positive (PyInt 0) (PyInt 3)
                       Examples.three).1)).1.1
              [Examples.m1; Examples.m2; Examples.m3])
    as (c' & Hrun & Hnames & _).
  - vm_compute. reflexivity.
  - vm_compute. apply NoDup_cons. split; [|apply NoDup_singleton].
    intros Hin. apply list_elem_of_singleton in Hin. discriminate Hin.
  - repeat constructor; intros name data Hin;
      repeat (apply elem_of_cons in Hin as [[= -> ->]|Hin]; [by eexists|]);
      by apply elem_of_nil in Hin.
  - exists c'. split; [vm_compute; reflexivity|]. split; [exact Hrun|].
    exact Hnames.
Defined.

(** ** [__reset_col_widths] *)

Lemma reset_items {F} (pre suf : list (string * MessagePane.column F)) n :
  NoDup (pre ++ suf).*1 →
  for_list suf (λ '(name, data),
    modify (MessagePane.set_col name
              (MessagePane.mkColumn (MessagePane.attr_name data)
                 (Z.of_nat (String.length name))
                 (MessagePane.formatter data))))
    (MessagePane.mkColumns (pre ++ suf) n)
  = (MessagePane.mkColumns
       (pre ++ ((λ item, (item.1,
                   MessagePane.mkColumn (MessagePane.attr_name item.2)
                     (Z.of_nat (String.length item.1))
                     (MessagePane.formatter item.2))) <$> suf)) n, Ok tt).
Proof.
  revert pre. induction suf as [|[name data] suf IH]; intros pre Hnd; [done|].
  assert (Hfresh : name ∉ pre.*1).
  { rewrite fmap_app in Hnd. apply NoDup_app in Hnd as (_ & Hdis & _).
    intros Hin. apply (Hdis name Hin). cbn. apply list_elem_of_here. }
  erewrite for_list_cons_ok by reflexivity.
  change (MessagePane.set_col name ?d (MessagePane.mkColumns ?l ?k))
    with (MessagePane.mkColumns (MessagePane.dict_set name d l) k).
  rewrite dict_set_middle by done.
  specialize (IH (pre ++ [(name, MessagePane.mkColumn
                                   (MessagePane.attr_name data)
                                   (Z.of_nat (String.length name))
                                   (MessagePane.formatter data))])).
  rewrite <- !(assoc_L (++)) in IH. cbn [app] in IH. rewrite IH; [done|].
  rewrite !fmap_app in *. exact Hnd.
Qed.

(** [__reset_col_widths] returns and sets the width of every column to the
    length of its name; names, their order, attributes and formatters stay,
    and the pane is not cleared.  A second call changes nothing. *)
Theorem reset_col_widths_sets_name_lengths {F} (c : MessagePane.columns F) :
  NoDup (MessagePane.cols c).*1 →
  ∃ c',
    MessagePane.__reset_col_widths c = (c', Ok tt) ∧
    (MessagePane.cols c').*1 = (MessagePane.cols c).*1 ∧
    MessagePane.clears c' = MessagePane.clears c ∧
    Forall2 (λ old new,
      MessagePane.col_width new.2 = Z.of_nat (String.length old.1) ∧
      MessagePane.attr_name new.2 = MessagePane.attr_name old.2 ∧
      MessagePane.formatter new.2 = MessagePane.formatter old.2)
      (MessagePane.cols c) (MessagePane.cols c') ∧
    MessagePane.__reset_col_widths c' = (c', Ok tt).
Proof.
  intros Hnd. destruct c as [items n]. cbn [MessagePane.cols] in Hnd.
  assert (Hrun : ∀ l : list (string * MessagePane.column F),
            NoDup l.*1 →
            MessagePane.__reset_col_widths (MessagePane.mkColumns l n)
            = (MessagePane.mkColumns
                 ((λ item, (item.1,
                     MessagePane.mkColumn (MessagePane.attr_name item.2)
                       (Z.of_nat (String.length item.1))
                       (MessagePane.formatter item.2))) <$> l) n, Ok tt)).
  { intros l Hl. unfold MessagePane.__reset_col_widths.
    unfold mbind at 1, ST_bind at 1, gets. cbn [MessagePane.cols].
    exact (reset_items [] l n Hl). }
  set (f := λ item : string * MessagePane.column F, _) in Hrun.
  assert (Hnames : ∀ l : list (string * MessagePane.column F),
            (f <$> l).*1 = l.*1).
  { intros l. rewrite <- list_fmap_compose. apply list_fmap_ext.
    by intros ? []. }
  exists (MessagePane.mkColumns (f <$> items) n).
  cbn [MessagePane.cols MessagePane.clears]. split_and!.
  - by apply Hrun.
  - apply Hnames.
  - done.
  - apply Forall2_fmap_self. by intros [name data] _.
  - rewrite Hrun by (by rewrite Hnames). do 2 f_equal.
    rewrite <- list_fmap_compose. apply list_fmap_ext. by intros ? [].
Qed.

Lemma reset_col_widths_sets_name_lengths_witness :
  ∃ c',
    MessagePane.__reset_col_widths
      (MessagePane.mkColumns
         [("COB ID", MessagePane.mkColumn "arb_id" 0 (Some 0));
          ("Message", MessagePane.mkColumn "message" 0 None)] 0)
    = (c', Ok tt) ∧ c' = Screens.two_columns.
Proof.
  destruct (reset_col_widths_sets_name_lengths
              (MessagePane.mkColumns
                 [("COB ID", MessagePane.mkColumn "arb_id" 0 (Some 0));
                  ("Message", MessagePane.mkColumn "message" 0 None)] 0))
    as (c' & Hrun & _).
  - vm_compute. apply NoDup_cons. split; [|apply NoDup_singleton].
    intros Hin. apply list_elem_of_singleton in Hin. discriminate Hin.
  - exists c'. split; [exact Hrun|].
    vm_compute in Hrun. by injection Hrun as <-.
Defined.
